(** * Onyx web connector: crawl loop, link extraction and construction

    A shallow embedding of [backend/onyx/connectors/web/connector.py]:
    [check_internet_connection], [is_valid_url], [get_internal_links],
    the URL helpers, [WebConnector.__init__] and the generator
    [WebConnector.load_from_state], followed by the properties of the
    crawl engine that the specification states about them. *)

From Stdlib Require Import ZArith Ascii String List Bool Lia DecimalString.
From stdpp Require Import gmap strings list.

Local Open Scope string_scope.
Local Open Scope Z_scope.

(** ** Python string primitives used by the connector *)

Module Py.

(** [s.split(sep)] for a one-character separator: the pieces between
    the separators, in order; never the empty list. *)
Fixpoint split (sep : ascii) (s : string) : list string :=
  match s with
  | EmptyString => [EmptyString]
  | String c s' =>
      if Ascii.eqb c sep then EmptyString :: split sep s'
      else match split sep s' with
           | [] => [String c EmptyString]
           | p :: ps => String c p :: ps
           end
  end.

(** [s.split(sep)[-1]] and [s.split(sep)[0]]. *)
Definition split_last (sep : ascii) (s : string) : string :=
  List.last (split sep s) EmptyString.

Definition split_first (sep : ascii) (s : string) : string :=
  List.hd EmptyString (split sep s).

(** [needle in hay]. *)
Fixpoint contains (needle hay : string) : bool :=
  String.prefix needle hay
  || match hay with
     | EmptyString => false
     | String _ hay' => contains needle hay'
     end.

(** [s.replace(a, b)] for one-character [a] and [b]. *)
Fixpoint replace (a b : ascii) (s : string) : string :=
  match s with
  | EmptyString => EmptyString
  | String c s' => String (if Ascii.eqb c a then b else c) (replace a b s')
  end.

(** Truthiness of a string, and of an optional string ([None] is falsy). *)
Definition truthy (s : string) : bool :=
  match s with EmptyString => false | String _ _ => true end.

Definition truthy_opt (o : option string) : bool :=
  match o with Some s => truthy s | None => false end.

(** White space as [str.strip()] and [int()] see it.  A character is a
    code point below 256; the white space among these is U+0009 to
    U+000D, U+001C to U+0020, U+0085 and U+00A0. *)
Definition is_space (c : ascii) : bool :=
  let n := nat_of_ascii c in
  ((9 <=? n) && (n <=? 13) || (28 <=? n) && (n <=? 32)
   || (n =? 133) || (n =? 160))%nat.

Fixpoint lstrip (s : string) : string :=
  match s with
  | String c s' => if is_space c then lstrip s' else s
  | EmptyString => EmptyString
  end.

Fixpoint rstrip (s : string) : string :=
  match s with
  | EmptyString => EmptyString
  | String c s' =>
      match rstrip s' with
      | EmptyString => if is_space c then EmptyString else String c EmptyString
      | r => String c r
      end
  end.

Definition strip (s : string) : string := rstrip (lstrip s).

(** [str(n)] for an integer. *)
Definition str (n : Z) : string := NilZero.string_of_int (Z.to_int n).

(** [int(s)] on a string: optional surrounding white space, an optional
    sign, then decimal digits, where single underscores may separate
    digits.  [None] stands for the [ValueError]. *)
Definition digit (c : ascii) : option Z :=
  let n := nat_of_ascii c in
  if ((48 <=? n) && (n <=? 57))%nat then Some (Z.of_nat n - 48) else None.

(** [digits after_digit acc s]: [after_digit] tells whether the previous
    character was a digit (so that an underscore or the end may follow). *)
Fixpoint digits (after_digit : bool) (acc : Z) (s : string) : option Z :=
  match s with
  | EmptyString => if after_digit then Some acc else None
  | String c s' =>
      match digit c with
      | Some d => digits true (10 * acc + d) s'
      | None =>
          if Ascii.eqb c "_" && after_digit then digits false acc s'
          else None
      end
  end.

Definition int (s : string) : option Z :=
  match strip s with
  | String "-" s' => Z.opp <$> digits false 0 s'
  | String "+" s' => digits false 0 s'
  | s' => digits false 0 s'
  end.

End Py.

(** ** Data model *)

(** What a call into a collaborator gives back: a value, or an exception
    with its message ([str(e)]). *)
Inductive result (A : Type) : Type :=
| Ok (a : A)
| Raise (e : string).
Arguments Ok {A} a.
Arguments Raise {A} e.

Definition result_bind {A B} (r : result A) (k : A -> result B) : result B :=
  match r with
  | Ok a => k a
  | Raise e => Raise e
  end.

(** [onyx.connectors.models]: the records the connector builds. *)
Module Models.
Inductive DocumentSource := WEB.

Record Section := { link : string; text : string }.

Record Document := {
  id : string;
  sections : list Section;
  source : DocumentSource;
  semantic_identifier : string;
  metadata : gmap string string;
  doc_updated_at : option Z
}.
End Models.

Abbreviation Document := Models.Document.

(** The second argument of [frontier.handle_ratelimit]: the probe passes
    the raw header (a [str]) or the integer 5, the crawl loop an [int]. *)
Inductive RetryAfter :=
| RetryInt (n : Z)
| RetryStr (s : string).

Definition retry_str (r : RetryAfter) : string :=
  match r with
  | RetryInt n => Py.str n
  | RetryStr s => s
  end.

(** [urlparse(u)], as far as the connector reads it. *)
Record ParseResult := { scheme : string; netloc : string }.

(** A parsed page ([BeautifulSoup(page.content(), "html.parser")]): the
    [href] attribute of every [<a>] in document order ([None] when the
    anchor has none), and the markup handed to the cleanup. *)
Record Soup := { anchors : list (option string); markup : string }.

(** [web_html_cleanup] result. *)
Record ParsedHTML := { title : option string; cleaned_text : string }.

(** Collaborators outside the repository: [urllib.parse], the PDF reader,
    the HTML cleanup and [datetime.strptime] with the connector's
    format.  [Raise] stands for the exception the call may throw
    ([ValueError] for the two [urllib] functions). *)
Class Collaborators := {
  urlparse : string -> result ParseResult;
  urljoin : string -> string -> result string;
  read_pdf_file : string -> result (string * gmap string string);
  web_html_cleanup : Soup -> bool -> result ParsedHTML;
  strptime_last_modified : string -> option Z
}.

(** [onyx.utils.url_frontier.URLFrontier], as the connector calls it.
    Every operation also receives the wall-clock time at which it runs. *)
Class URLFrontier (F : Type) := {
  new_frontier : F;
  add_url : Z -> string -> F -> F;
  has_next_url : Z -> F -> bool;
  get_next_url : Z -> F -> option string * F;
  handle_ratelimit : Z -> string -> RetryAfter -> F -> F
}.

(** *** What the network and the renderer answer during one iteration *)

(** [requests.get(url, timeout=3)] followed by [raise_for_status()] in
    the reachability probe. *)
Inductive ProbeObs :=
| ProbeOk
| ProbeHTTPError (response : option (Z * option string)) (e : string)
| ProbeSSLError (cause : string)
| ProbeRequestError (e : string)
| ProbeOtherError (e : string).

(** [requests.get(current_url)] on the PDF path. *)
Record Response := {
  status_code : Z;
  retry_after : option string;
  last_modified : option string;
  content : string
}.

(** [page.goto(current_url)] on the rendered path. *)
Record PageResponse := {
  status : Z;
  header_retry_after : option string;
  header_last_modified : option string
}.

Record PageObs := {
  new_page : result unit;
  goto : result (option PageResponse);
  page_url : string;
  page_content : result Soup;
  page_close : result unit
}.

(** One loop iteration's worth of answers: the probe, [start_playwright()]
    should this iteration restart the session, the direct GET and the
    rendered load.  The iteration reads the ones its path reaches. *)
Record Obs := {
  probe : ProbeObs;
  restart : result unit;
  pdf_get : result Response;
  page : PageObs
}.

(** Effects the loop performs, in the order it performs them. *)
Inductive Event :=
| EvStart
| EvStop
| EvProbe (url : string)
| EvGet (url : string)
| EvGoto (url : string)
| EvFault (msg : string)
| EvYield (batch : list Document).

(** How the generator ends. *)
Inductive Exn :=
| ValueError (msg : string)
| RuntimeError (msg : string)
| OtherError (msg : string).

Inductive Terminal :=
| Returned
| Raised (e : Exn).

(** How the body of the [try] block ends when it does not raise: at a
    [continue], or by running off its end into the batch check. *)
Inductive Flow := Continue | FallThrough.

(** ** The module-level functions *)

Definition _ensure_valid_url (url : string) : string :=
  if negb (Py.contains "://" url) then "https://" +:+ url else url.

Definition http_error_names : list (Z * string) :=
  [ (400, "Bad Request"); (401, "Unauthorized"); (403, "Forbidden");
    (404, "Not Found"); (500, "Internal Server Error"); (502, "Bad Gateway");
    (503, "Service Unavailable"); (504, "Gateway Timeout") ].

Fixpoint dict_get {V} (d : list (Z * V)) (k : Z) (dflt : V) : V :=
  match d with
  | [] => dflt
  | (k', v) :: d' => if k' =? k then v else dict_get d' k dflt
  end.

Section Functions.
Context `{Collaborators}.

Definition is_valid_url (url : string) : bool :=
  match urlparse url with
  | Ok r => Py.truthy (scheme r) && Py.truthy (netloc r)
  | Raise _ => false
  end.

(** The three rewriting steps [get_internal_links] applies to one
    non-empty [href], then its test. *)
Definition fix_backslashes (href : string) : string :=
  Py.replace "\" "/" href.

Definition strip_pound (should_ignore_pound : bool) (href : string) : string :=
  if should_ignore_pound && Py.contains "#" href
  then Py.split_first "#" href else href.

Definition resolve_href (url href : string) : result string :=
  if negb (is_valid_url href) then urljoin url href else Ok href.

Definition is_internal (base_url url href : string) : result bool :=
  result_bind (urlparse href) (fun p =>
  result_bind (urlparse url) (fun q =>
  Ok (String.eqb (netloc p) (netloc q) && Py.contains base_url href))).

Fixpoint collect_links (base_url url : string) (should_ignore_pound : bool)
    (links : list (option string)) (internal_links : gset string)
    : result (gset string) :=
  match links with
  | [] => Ok internal_links
  | link :: links' =>
      match link with
      | Some (String _ _ as href) =>
          let href := fix_backslashes href in
          let href := strip_pound should_ignore_pound href in
          result_bind (resolve_href url href) (fun href =>
          result_bind (is_internal base_url url href) (fun keep =>
          collect_links base_url url should_ignore_pound links'
            (if keep then internal_links ∪ {[ href ]} else internal_links)))
      | _ => collect_links base_url url should_ignore_pound links' internal_links
      end
  end.

Definition get_internal_links (base_url url : string) (soup : Soup)
    (should_ignore_pound : bool) : result (gset string) :=
  collect_links base_url url should_ignore_pound (anchors soup) ∅.

Definition _ensure_absolute_url (source_url maybe_relative_url : string)
    : result string :=
  result_bind (urlparse maybe_relative_url) (fun p =>
  if negb (Py.truthy (netloc p)) then urljoin source_url maybe_relative_url
  else Ok maybe_relative_url).

Definition _get_datetime_from_last_modified_header (last_modified : string)
    : option Z :=
  strptime_last_modified last_modified.

(** [f(last_modified) if last_modified else None]. *)
Definition updated_at (last_modified : option string) : option Z :=
  match last_modified with
  | Some lm =>
      if Py.truthy lm then _get_datetime_from_last_modified_header lm else None
  | None => None
  end.

End Functions.

(** ** Construction of the connector *)

(** The sitemap as [extract_urls_from_sitemap] reads it: the text of each
    [<loc>] in document order and the number of [<urlset>] tags. *)
Record SitemapDoc := { locs : list string; urlsets : nat }.

(** What construction may read from outside: the sitemap response
    ([requests.get] then [raise_for_status]), the sitemap discovery of
    [list_pages_for_site], and the lines of the uploaded URL file. *)
Record InitWorld := {
  sitemap_get : result SitemapDoc;
  list_pages_for_site : result (list string);
  urls_file : result (list string)
}.

Record WebConnector := {
  mintlify_cleanup : bool;
  batch_size : Z;
  recursive : bool;
  tenant_id : string;
  connector_id : option Z;
  credential_id : option Z;
  to_visit_list : list string
}.

Module WEB_CONNECTOR_VALID_SETTINGS.
Definition RECURSIVE := "recursive".
Definition SINGLE := "single".
Definition SITEMAP := "sitemap".
Definition UPLOAD := "upload".
End WEB_CONNECTOR_VALID_SETTINGS.

Fixpoint result_map {A B} (f : A -> result B) (l : list A) : result (list B) :=
  match l with
  | [] => Ok []
  | a :: l' =>
      result_bind (f a) (fun b =>
      result_bind (result_map f l') (fun bs => Ok (b :: bs)))
  end.

Section Construction.
Context `{Collaborators}.
Variable iw : InitWorld.

Definition extract_urls_from_sitemap (sitemap_url : string)
    : result (list string) :=
  result_bind (sitemap_get iw) (fun soup =>
  result_bind (result_map (_ensure_absolute_url sitemap_url) (locs soup))
    (fun urls =>
  result_bind
    (if (length urls =? 0)%nat && (urlsets soup =? 0)%nat
     then list_pages_for_site iw else Ok urls) (fun urls =>
  if (length urls =? 0)%nat
  then Raise ("No URLs found in sitemap " +:+ sitemap_url +:+
              ". Try using the 'single' or 'recursive' scraping options instead.")
  else Ok urls))).

Definition _read_urls_file : result (list string) :=
  result_bind (urls_file iw) (fun f =>
  Ok (map (fun line => _ensure_valid_url (Py.strip line))
          (filter (fun line => Py.truthy (Py.strip line) = true) f))).

Definition __init__ (base_url web_connector_type : string)
    (mintlify_cleanup : bool) (batch_size : Z) (tenant_id : string)
    (connector_id credential_id : option Z) : result WebConnector :=
  let self recursive to_visit_list :=
    {| mintlify_cleanup := mintlify_cleanup; batch_size := batch_size;
       recursive := recursive; tenant_id := tenant_id;
       connector_id := connector_id; credential_id := credential_id;
       to_visit_list := to_visit_list |} in
  if String.eqb web_connector_type WEB_CONNECTOR_VALID_SETTINGS.RECURSIVE then
    Ok (self true [_ensure_valid_url base_url])
  else if String.eqb web_connector_type WEB_CONNECTOR_VALID_SETTINGS.SINGLE then
    Ok (self false [_ensure_valid_url base_url])
  else if String.eqb web_connector_type WEB_CONNECTOR_VALID_SETTINGS.SITEMAP then
    result_bind (extract_urls_from_sitemap (_ensure_valid_url base_url))
      (fun urls => Ok (self false urls))
  else if String.eqb web_connector_type WEB_CONNECTOR_VALID_SETTINGS.UPLOAD then
    result_bind _read_urls_file (fun urls => Ok (self false urls))
  else
    Raise "Invalid Web Connector Config, must choose a valid type between: ".

End Construction.

(** ** The crawl loop: [WebConnector.load_from_state] *)

(** The generator's local variables, the rendering process bound to
    [playwright] (running or stopped), and the effects so far, most
    recent first. *)
Record Loop (F : Type) := {
  frontier : F;
  doc_batch : list Document;
  at_least_one_doc : bool;
  last_error : option string;
  playwright_running : bool;
  restart_playwright : bool;
  events : list Event
}.
Arguments frontier {F} _.
Arguments doc_batch {F} _.
Arguments at_least_one_doc {F} _.
Arguments last_error {F} _.
Arguments playwright_running {F} _.
Arguments restart_playwright {F} _.
Arguments events {F} _.

(** How far a run got: the generator finished (returned or raised), or
    the recorded observations ended while the frontier still had work. *)
Inductive Outcome (F : Type) :=
| Finished (st : Loop F) (t : Terminal)
| Pending (st : Loop F).
Arguments Finished {F} st t.
Arguments Pending {F} st.

(** The outside of one run: the clock ([clock 0] when the frontier is
    seeded, [clock n] during iteration [n]), the first
    [start_playwright()], and the answers of each iteration in turn. *)
Record World := {
  clock : nat -> Z;
  start0 : result unit;
  observations : list Obs
}.

Section CrawlLoop.
Context `{Collaborators} {F : Type} `{URLFrontier F}.

Definition with_frontier (f : F -> F) (st : Loop F) : Loop F :=
  {| frontier := f (frontier st); doc_batch := doc_batch st;
     at_least_one_doc := at_least_one_doc st; last_error := last_error st;
     playwright_running := playwright_running st;
     restart_playwright := restart_playwright st; events := events st |}.

Definition emit (e : Event) (st : Loop F) : Loop F :=
  {| frontier := frontier st; doc_batch := doc_batch st;
     at_least_one_doc := at_least_one_doc st; last_error := last_error st;
     playwright_running := playwright_running st;
     restart_playwright := restart_playwright st; events := e :: events st |}.

(** [last_error = msg] followed by the logger call on it. *)
Definition record_fault (msg : string) (st : Loop F) : Loop F :=
  {| frontier := frontier st; doc_batch := doc_batch st;
     at_least_one_doc := at_least_one_doc st; last_error := Some msg;
     playwright_running := playwright_running st;
     restart_playwright := restart_playwright st;
     events := EvFault msg :: events st |}.

(** [doc_batch.append(doc)]. *)
Definition append_doc (doc : Document) (st : Loop F) : Loop F :=
  {| frontier := frontier st; doc_batch := doc_batch st ++ [doc];
     at_least_one_doc := at_least_one_doc st; last_error := last_error st;
     playwright_running := playwright_running st;
     restart_playwright := restart_playwright st; events := events st |}.

(** [playwright, context = start_playwright()] once the call returned. *)
Definition started (st : Loop F) : Loop F :=
  {| frontier := frontier st; doc_batch := doc_batch st;
     at_least_one_doc := at_least_one_doc st; last_error := last_error st;
     playwright_running := true;
     restart_playwright := restart_playwright st;
     events := EvStart :: events st |}.

(** [playwright.stop()]. *)
Definition playwright_stop (st : Loop F) : Loop F :=
  {| frontier := frontier st; doc_batch := doc_batch st;
     at_least_one_doc := at_least_one_doc st; last_error := last_error st;
     playwright_running := false;
     restart_playwright := restart_playwright st;
     events := EvStop :: events st |}.

Definition set_restart (b : bool) (st : Loop F) : Loop F :=
  {| frontier := frontier st; doc_batch := doc_batch st;
     at_least_one_doc := at_least_one_doc st; last_error := last_error st;
     playwright_running := playwright_running st;
     restart_playwright := b; events := events st |}.

(** [at_least_one_doc = True; yield doc_batch; doc_batch = []]. *)
Definition yield_batch (st : Loop F) : Loop F :=
  {| frontier := frontier st; doc_batch := [];
     at_least_one_doc := true; last_error := last_error st;
     playwright_running := playwright_running st;
     restart_playwright := restart_playwright st;
     events := EvYield (doc_batch st) :: events st |}.

(** *** Statements that may raise: state and exception *)

Definition M (A : Type) : Type := Loop F -> Loop F * result A.

Definition ret {A} (a : A) : M A := fun st => (st, Ok a).

Definition bind {A B} (m : M A) (k : A -> M B) : M B :=
  fun st =>
    match m st with
    | (st', Ok a) => k a st'
    | (st', Raise e) => (st', Raise e)
    end.

Definition raise {A} (e : string) : M A := fun st => (st, Raise e).

Definition call {A} (r : result A) : M A := fun st => (st, r).

Definition update (f : Loop F -> Loop F) : M unit := fun st => (f st, Ok tt).

Notation "'do' x <- m ; k" := (bind m (fun x => k))
  (at level 10, x name, m at level 100, k at level 200).
Notation "m ;; k" := (bind m (fun _ => k))
  (at level 100, k at level 200, right associativity).

(** [int(s)], raising [ValueError] where the text is no integer. *)
Definition int_of (s : string) : M Z :=
  match Py.int s with
  | Some n => ret n
  | None => raise ("invalid literal for int() with base 10: '" +:+ s +:+ "'")
  end.

Definition check_internet_connection (now : Z) (url : string) (p : ProbeObs)
    : M unit :=
  update (emit (EvProbe url)) ;;
  match p with
  | ProbeOk => ret tt
  | ProbeHTTPError response e =>
      let status_code :=
        match response with Some (code, _) => code | None => -1 end in
      if status_code =? 429 then
        let retry_after :=
          match response with
          | Some (_, Some h) => RetryStr h
          | _ => RetryInt 5
          end in
        update (with_frontier (handle_ratelimit now url retry_after)) ;;
        raise ("Rate limited for " +:+ url +:+ ". Retry after " +:+
               retry_str retry_after +:+ " seconds")
      else
        let error_msg := dict_get http_error_names status_code "HTTP Error" in
        raise (error_msg +:+ " (" +:+ Py.str status_code +:+ ") for " +:+
               url +:+ " - " +:+ e)
  | ProbeSSLError cause => raise ("SSL error " +:+ cause)
  | ProbeRequestError e =>
      raise ("Unable to reach " +:+ url +:+
             " - check your internet connection: " +:+ e)
  | ProbeOtherError e => raise e
  end.

Definition start_playwright (r : result unit) : M unit :=
  call r ;; update started.

(** Lines 274-276: a session stopped earlier is replaced now. *)
Definition restart_if_asked (r : result unit) : M unit :=
  fun st =>
    if restart_playwright st
    then (start_playwright r ;; update (set_restart false)) st
    else ret tt st.

(** [current_url.split(".")[-1] == "pdf"]. *)
Definition is_pdf_url (current_url : string) : bool :=
  String.eqb (Py.split_last "." current_url) "pdf".

(** [str(status)[0] in ("4", "5")]. *)
Definition is_error_status (status : Z) : bool :=
  match Py.str status with
  | String c _ => Ascii.eqb c "4" || Ascii.eqb c "5"
  | EmptyString => false
  end.

Definition pdf_document (current_url page_text : string)
    (metadata : gmap string string) (last_modified : option string)
    : Document :=
  {| Models.id := current_url;
     Models.sections := [ {| Models.link := current_url;
                             Models.text := page_text |} ];
     Models.source := Models.WEB;
     Models.semantic_identifier := Py.split_last "/" current_url;
     Models.metadata := metadata;
     Models.doc_updated_at := updated_at last_modified |}.

Definition html_document (current_url : string) (parsed_html : ParsedHTML)
    (last_modified : option string) : Document :=
  {| Models.id := current_url;
     Models.sections := [ {| Models.link := current_url;
                             Models.text := cleaned_text parsed_html |} ];
     Models.source := Models.WEB;
     Models.semantic_identifier :=
       (if Py.truthy_opt (title parsed_html)
        then default current_url (title parsed_html) else current_url);
     Models.metadata := ∅;
     Models.doc_updated_at := updated_at last_modified |}.

(** [for link in internal_links: frontier.add_url(link)]. *)
Definition links_added (now : Z) (internal_links : gset string) (fr : F) : F :=
  foldl (fun fr link => add_url now link fr) fr (elements internal_links).

Section Iteration.
Variable self : WebConnector.
Variable base_url : string.
Variable now : Z.
Variable o : Obs.
Variable current_url : string.

(** Lines 280-312: the direct GET of a PDF. *)
Definition visit_pdf : M Flow :=
  update (emit (EvGet current_url)) ;;
  do response <- call (pdf_get o) ;
  if status_code response =? 429 then
    do n <- match retry_after response with
            | Some h => int_of h
            | None => ret 5
            end ;
    update (with_frontier
              (handle_ratelimit now current_url (RetryInt n))) ;;
    ret Continue
  else if negb (status_code response =? 200) then
    update (record_fault ("Failed to fetch '" +:+ current_url +:+ "': " +:+
                          Py.str (status_code response))) ;;
    ret Continue
  else
    do extracted <- call (read_pdf_file (content response)) ;
    let '(page_text, metadata) := extracted in
    update (append_doc (pdf_document current_url page_text metadata
                          (last_modified response))) ;;
    ret Continue.

(** Lines 336-339: the links of the page go to the frontier. *)
Definition add_internal_links (soup : Soup) : M unit :=
  if recursive self then
    do internal_links <-
      call (get_internal_links base_url current_url soup true) ;
    update (with_frontier (links_added now internal_links))
  else ret tt.

(** Lines 314-369: the rendered load. *)
Definition visit_page : M Flow :=
  call (new_page (page o)) ;;
  update (emit (EvGoto current_url)) ;;
  do page_response <- call (goto (page o)) ;
  match page_response with
  | None =>
      update (record_fault ("Failed to fetch '" +:+ current_url +:+ "'")) ;;
      ret Continue
  | Some page_response =>
      let retry_after := header_retry_after page_response in
      let last_modified := header_last_modified page_response in
      let final_page := page_url (page o) in
      if negb (String.eqb final_page current_url) then
        update (with_frontier (add_url now final_page)) ;;
        ret Continue
      else
        do soup <- call (page_content (page o)) ;
        add_internal_links soup ;;
        if is_error_status (status page_response) then
          update (record_fault
                    ("Skipped indexing " +:+ current_url +:+
                     " due to HTTP " +:+ Py.str (status page_response) +:+
                     " response")) ;;
          (if status page_response =? 429 then
             do n <- match retry_after with
                     | Some (String _ _ as h) => int_of h
                     | _ => ret 5
                     end ;
             update (with_frontier
                       (handle_ratelimit now current_url (RetryInt n)))
           else ret tt) ;;
          ret Continue
        else
          do parsed_html <-
            call (web_html_cleanup soup (mintlify_cleanup self)) ;
          update (append_doc (html_document current_url parsed_html
                                last_modified)) ;;
          call (page_close (page o)) ;;
          ret FallThrough
  end.

(** Lines 273-369: the body of the [try]. *)
Definition visit : M Flow :=
  check_internet_connection now current_url (probe o) ;;
  restart_if_asked (restart o) ;;
  if is_pdf_url current_url then visit_pdf else visit_page.

(** Lines 370-375: the handler. *)
Definition on_exception (e : string) (st : Loop F) : Loop F :=
  set_restart true
    (playwright_stop
       (record_fault ("Failed to fetch '" +:+ current_url +:+ "': " +:+ e)
          st)).

(** Lines 377-382: the batch check after the [try]. *)
Definition flush_if_full (st : Loop F) : Loop F :=
  if Z.of_nat (length (doc_batch st)) >=? batch_size self then
    yield_batch (set_restart true (playwright_stop st))
  else st.

Definition try_visit (st : Loop F) : Loop F :=
  match visit st with
  | (st', Raise e) => on_exception e st'
  | (st', Ok Continue) => st'
  | (st', Ok FallThrough) => flush_if_full st'
  end.
End Iteration.

(** One turn of the [while]: lines 265-382. *)
Definition iteration (self : WebConnector) (base_url : string) (now : Z)
    (o : Obs) (st : Loop F) : Loop F :=
  let '(current_url, fr) := get_next_url now (frontier st) in
  let st := with_frontier (fun _ => fr) st in
  match current_url with
  | Some (String _ _ as current_url) =>
      try_visit self base_url now o current_url st
  | _ => st
  end.

(** Lines 384-392: after the loop. *)
Definition finish (st : Loop F) : Loop F * Terminal :=
  let st :=
    match doc_batch st with
    | [] => st
    | _ :: _ => yield_batch (playwright_stop st)
    end in
  if negb (at_least_one_doc st) then
    if Py.truthy_opt (last_error st)
    then (st, Raised (RuntimeError (default "" (last_error st))))
    else (st, Raised (RuntimeError "No valid pages found."))
  else (st, Returned).

(** The [while frontier.has_next_url()] loop from iteration [n] on. *)
Fixpoint crawl (self : WebConnector) (base_url : string) (clock : nat -> Z)
    (n : nat) (obs : list Obs) (st : Loop F) : Outcome F :=
  if has_next_url (clock n) (frontier st) then
    match obs with
    | [] => Pending st
    | o :: obs' =>
        crawl self base_url clock (S n) obs'
              (iteration self base_url (clock n) o st)
    end
  else let '(st, t) := finish st in Finished st t.

(** The state before anything ran. *)
Definition initial (fr : F) : Loop F :=
  {| frontier := fr; doc_batch := []; at_least_one_doc := false;
     last_error := None; playwright_running := false;
     restart_playwright := false; events := [] |}.

Definition load_from_state (self : WebConnector) (w : World) : Outcome F :=
  match to_visit_list self with
  | [] => Finished (initial new_frontier) (Raised (ValueError "No URLs to visit"))
  | base_url :: _ =>
      let fr := foldl (fun fr url => add_url (clock w 0) url fr)
                      new_frontier (to_visit_list self) in
      match start0 w with
      | Raise e => Finished (initial fr) (Raised (OtherError e))
      | Ok _ =>
          crawl self base_url (clock w) 1 (observations w)
                (started (initial fr))
      end
  end.

(** The batches a run has yielded, oldest first, and the faults it has
    recorded, most recent first. *)
Definition batches_of (evs : list Event) : list (list Document) :=
  rev (omap (fun e => match e with EvYield b => Some b | _ => None end) evs).

Definition faults_of (evs : list Event) : list string :=
  omap (fun e => match e with EvFault m => Some m | _ => None end) evs.

End CrawlLoop.

(** ** The URL frontier *)

(** Modelled from the spec: [onyx/utils/url_frontier.py] is not among the
    sources, so [URLFrontier] follows section 4.1 and the data model of
    the specification: a queue of entries with an earliest visit time and
    a visited set.  Where the specification is silent the model takes the
    plainest reading: normalisation strips the fragment; a new entry may
    be visited at once; a rate-limited URL is taken out of the visited
    set and queued again; a [Retry-After] text that is no integer waits
    for the connector's default of 5 seconds. *)
Module Frontier.

Record FrontierEntry := { url : string; earliestVisitTime : Z }.

Record t := { queue : list FrontierEntry; visited : gset string }.

Definition empty : t := {| queue := []; visited := ∅ |}.

Definition normalize (u : string) : string := Py.split_first "#" u.

Definition queued (u : string) (q : list FrontierEntry) : bool :=
  existsb (fun e => String.eqb (url e) u) q.

Definition add (now : Z) (u : string) (f : t) : t :=
  let u := normalize u in
  if bool_decide (u ∈ visited f) || queued u (queue f) then f
  else {| queue := queue f ++ [ {| url := u; earliestVisitTime := now |} ];
          visited := visited f |}.

Definition eligible (now : Z) (e : FrontierEntry) : bool :=
  earliestVisitTime e <=? now.

Definition hasNext (now : Z) (f : t) : bool :=
  existsb (eligible now) (queue f).

(** The first eligible entry in queue order, and the queue without it. *)
Fixpoint dequeue (now : Z) (q : list FrontierEntry)
    : option (FrontierEntry * list FrontierEntry) :=
  match q with
  | [] => None
  | e :: q' =>
      if eligible now e then Some (e, q')
      else match dequeue now q' with
           | Some (e', q'') => Some (e', e :: q'')
           | None => None
           end
  end.

Definition next (now : Z) (f : t) : option string * t :=
  match dequeue now (queue f) with
  | Some (e, q) => (Some (url e), {| queue := q; visited := visited f ∪ {[ url e ]} |})
  | None => (None, f)
  end.

Definition seconds (r : RetryAfter) : Z :=
  match r with
  | RetryInt n => n
  | RetryStr s => default 5 (Py.int s)
  end.

Definition handleRateLimit (now : Z) (u : string) (r : RetryAfter) (f : t) : t :=
  let u := normalize u in
  {| queue := filter (fun e => url e ≠ u) (queue f)
              ++ [ {| url := u; earliestVisitTime := now + seconds r |} ];
     visited := visited f ∖ {[ u ]} |}.

End Frontier.

#[global] Instance spec_frontier : URLFrontier Frontier.t := {
  new_frontier := Frontier.empty;
  add_url := Frontier.add;
  has_next_url := Frontier.hasNext;
  get_next_url := Frontier.next;
  handle_ratelimit := Frontier.handleRateLimit
}.

(** ** Stand-ins for the outside collaborators, used to run examples *)

Module Standin.

(** [cut sep s]: the text before and after the first occurrence of [sep]. *)
Fixpoint cut (sep s : string) : option (string * string) :=
  if String.prefix sep s
  then Some (EmptyString, String.substring (String.length sep)
                            (String.length s - String.length sep) s)
  else match s with
       | EmptyString => None
       | String c s' =>
           match cut sep s' with
           | Some (a, b) => Some (String c a, b)
           | None => None
           end
       end.

(** The text up to the first of [/], [?] and [#]. *)
Fixpoint authority (s : string) : string :=
  match s with
  | EmptyString => EmptyString
  | String c s' =>
      if Ascii.eqb c "/" || Ascii.eqb c "?" || Ascii.eqb c "#"
      then EmptyString else String c (authority s')
  end.

(** [urlparse] on URLs of the shape [scheme://netloc...]; anything else
    has neither scheme nor netloc. *)
Definition urlparse (u : string) : result ParseResult :=
  match cut "://" u with
  | Some (s, rest) => Ok {| scheme := s; netloc := authority rest |}
  | None => Ok {| scheme := ""; netloc := "" |}
  end.

(** [urljoin] for the empty reference and for absolute paths. *)
Definition urljoin (base ref : string) : result string :=
  match ref with
  | EmptyString => Ok base
  | String "/" _ =>
      match cut "://" base with
      | Some (s, rest) => Ok (s +:+ "://" +:+ authority rest +:+ ref)
      | None => Ok ref
      end
  | _ => Ok ref
  end.

#[global] Instance collaborators : Collaborators := {
  urlparse := urlparse;
  urljoin := urljoin;
  read_pdf_file := fun bytes => Ok (bytes, ∅);
  web_html_cleanup := fun soup _ =>
    Ok {| title := None; cleaned_text := markup soup |};
  strptime_last_modified := fun s =>
    if String.eqb s "Thu, 01 Jan 1970 00:00:00 GMT" then Some 0 else None
}.

(** Answers that are never looked at on the path an example takes. *)
Definition no_page : PageObs :=
  {| new_page := Ok tt; goto := Ok None; page_url := "";
     page_content := Raise "unused"; page_close := Ok tt |}.

(** A rendered page answering [code] at [url] with the given anchors. *)
Definition rendered (url : string) (code : Z) (hrefs : list (option string))
    : Obs :=
  {| probe := ProbeOk; restart := Ok tt; pdf_get := Raise "unused";
     page := {| new_page := Ok tt;
                goto := Ok (Some {| status := code;
                                    header_retry_after := None;
                                    header_last_modified := None |});
                page_url := url;
                page_content := Ok {| anchors := hrefs; markup := "text" |};
                page_close := Ok tt |} |}.

(** A direct GET answering [code] with body [bytes]. *)
Definition direct (code : Z) (retry : option string) (bytes : string) : Obs :=
  {| probe := ProbeOk; restart := Ok tt;
     pdf_get := Ok {| status_code := code; retry_after := retry;
                      last_modified := None; content := bytes |};
     page := no_page |}.

(** A probe that fails with an HTTP error. *)
Definition unreachable (code : Z) : Obs :=
  {| probe := ProbeHTTPError (Some (code, None)) "error";
     restart := Ok tt; pdf_get := Raise "unused"; page := no_page |}.

Definition connector (recursive : bool) (batch_size : Z)
    (urls : list string) : WebConnector :=
  {| mintlify_cleanup := true; batch_size := batch_size;
     recursive := recursive; tenant_id := "public";
     connector_id := None; credential_id := None;
     to_visit_list := urls |}.

Definition world (obs : list Obs) : World :=
  {| clock := fun n => Z.of_nat n; start0 := Ok tt; observations := obs |}.

Definition run (self : WebConnector) (w : World) : Outcome Frontier.t :=
  load_from_state self w.

End Standin.

(** ** Scanning a URL for its last dot *)

Fixpoint has_char (c : ascii) (s : string) : bool :=
  match s with
  | EmptyString => false
  | String c' s' => Ascii.eqb c' c || has_char c s'
  end.

(** The last piece of [s] when it is cut at every ['.'], found from the
    right; an auxiliary function for the proofs about [split]. *)
Fixpoint after_final_dot (s : string) : string :=
  match s with
  | EmptyString => EmptyString
  | String c s' =>
      if has_char "." s' then after_final_dot s'
      else if Ascii.eqb c "." then s' else s
  end.

(** ** Predicates used to state the properties *)

(** [m] keeps [P], whether it returns or raises. *)
Definition preserves {F A} (P : Loop F -> Prop) (m : @M F A) : Prop :=
  forall st, P st -> P (m st).1.

(** The state in which the fetch starts once the probe has passed and a
    pending restart has succeeded. *)
Definition ready {F} (current_url : string) (st : Loop F) : Loop F :=
  let st := emit (EvProbe current_url) st in
  if restart_playwright st then set_restart false (started st) else st.

Definition is_yield (e : Event) : bool :=
  match e with EvYield _ => true | _ => false end.

(** Bookkeeping of the loop: [at_least_one_doc] says whether a batch was
    yielded, [last_error] is the most recent recorded fault, and no
    recorded fault is empty. *)
Record Inv {F} (st : Loop F) : Prop := {
  inv_yielded : at_least_one_doc st = existsb is_yield (events st);
  inv_last_error : last_error st = head (faults_of (events st));
  inv_truthy : Forall (fun m => Py.truthy m = true) (faults_of (events st))
}.

(** The message of the error raised after a crawl without documents. *)
Definition terminal_message (evs : list Event) : string :=
  match faults_of evs with
  | m :: _ => m
  | [] => "No valid pages found."
  end.

Definition final_state {F} (r : Outcome F) : Loop F :=
  match r with Finished st _ => st | Pending st => st end.

Definition terminal {F} (r : Outcome F) : option Terminal :=
  match r with Finished _ t => Some t | Pending _ => None end.

(** ** Example runs *)

(** Every seed answers HTTP 500 to the probe. *)
Definition all_unreachable : Outcome Frontier.t :=
  Standin.run (Standin.connector false 10 ["https://a.com/x"; "https://a.com/y"])
    (Standin.world [Standin.unreachable 500; Standin.unreachable 500]).

(** Two PDFs, both fetched, with a batch size of one. *)
Definition two_pdfs : Outcome Frontier.t :=
  Standin.run
    (Standin.connector false 1 ["https://a.com/a.pdf"; "https://a.com/b.pdf"])
    (Standin.world [Standin.direct 200 None "A"; Standin.direct 200 None "B"]).

(** One seed whose probe passes and whose rendered load answers 404. *)
Definition soft_404 : Outcome Frontier.t :=
  Standin.run (Standin.connector false 10 ["https://a.com/x"])
    (Standin.world [Standin.rendered "https://a.com/x" 404 []]).

(** Batch size one; the first seed is indexed, the second redirects to
    the first. *)
Definition redirect_to_visited : Outcome Frontier.t :=
  Standin.run
    (Standin.connector false 1 ["https://a.com/y"; "https://a.com/x"])
    (Standin.world [Standin.rendered "https://a.com/y" 200 [];
                    Standin.rendered "https://a.com/y" 200 []]).

(** The state in which the loop is entered for the seeds [urls]. *)
Definition seeded (urls : list string) : Loop Frontier.t :=
  started (initial (foldl (fun fr u => Frontier.add 0 u fr) Frontier.empty urls)).




(** The first seed cannot be reached (HTTP 500 on the probe), the second
    is indexed. *)
Definition fault_then_page : Outcome Frontier.t :=
  Standin.run (Standin.connector false 10 ["https://a.com/x"; "https://a.com/y"])
    (Standin.world [Standin.unreachable 500;
                    Standin.rendered "https://a.com/y" 200 []]).

(** Recursive mode from the seed [https://a.com/]: the seed redirects to a
    login page on another host, which links to a page of its own host
    with the seed in the query string. *)
Definition off_site_redirect : Outcome Frontier.t :=
  Standin.run (Standin.connector true 10 ["https://a.com/"])
    (Standin.world
       [ Standin.rendered "https://b.com/login?next=https://a.com/" 200 [];
         Standin.rendered "https://b.com/login?next=https://a.com/" 200
           [Some "https://b.com/help?next=https://a.com/"];
         Standin.rendered "https://b.com/help?next=https://a.com/" 200 [] ]).

(** A page under [https://a.com/docs] with a link written with
    backslashes and a fragment, a link to another site, and an anchor
    without [href]. *)
Definition docs_page : Soup :=
  {| anchors := [Some "\docs\intro#top"; Some "https://other.org/"; None];
     markup := "" |}.

(** An upload whose file holds blank lines only. *)
Definition blank_upload : InitWorld :=
  {| sitemap_get := Raise "unused"; list_pages_for_site := Raise "unused";
     urls_file := Ok [""; "   "] |}.

(** ** The slim reconciliation loop: [retrieve_all_slim_documents] *)

Definition _SLIM_BATCH_SIZE : Z := 1000.

Module SlimModels.
Record SlimDocument := { id : string }.
End SlimModels.

Abbreviation SlimDocument := SlimModels.SlimDocument.

(** The generator's local variables and the batches yielded so far, most
    recent first. *)
Record SlimLoop (F : Type) := {
  slim_frontier : F;
  slim_doc_batch : list SlimDocument;
  slim_yielded : list (list SlimDocument)
}.
Arguments slim_frontier {F} _.
Arguments slim_doc_batch {F} _.
Arguments slim_yielded {F} _.

Inductive SlimOutcome (F : Type) :=
| SlimFinished (st : SlimLoop F) (t : Terminal)
| SlimPending (st : SlimLoop F).
Arguments SlimFinished {F} st t.
Arguments SlimPending {F} st.

(** The outside of one slim run: the clock, the document ids the
    database holds for the connector and credential pair, and the answer
    to the probe of each iteration. *)
Record SlimWorld := {
  slim_clock : nat -> Z;
  document_ids : result (list string);
  probes : list ProbeObs
}.

Section SlimLoop.
Context `{Collaborators} {F : Type} `{URLFrontier F}.

(** [check_internet_connection(current_url, frontier=frontier)] as the
    slim loop sees it: the frontier afterwards, and whether it raised. *)
Definition slim_probe (now : Z) (current_url : string) (p : ProbeObs) (fr : F)
    : F * result unit :=
  let '(st, r) := check_internet_connection now current_url p (initial fr) in
  (frontier st, r).

(** One turn of the [while]: lines 414-425. *)
Definition slim_iteration (now : Z) (p : ProbeObs) (st : SlimLoop F)
    : SlimLoop F :=
  let '(current_url, fr) := get_next_url now (slim_frontier st) in
  match current_url with
  | None =>
      {| slim_frontier := fr; slim_doc_batch := slim_doc_batch st;
         slim_yielded := slim_yielded st |}
  | Some current_url =>
      match slim_probe now current_url p fr with
      | (fr, Raise _) =>
          {| slim_frontier := fr; slim_doc_batch := slim_doc_batch st;
             slim_yielded := slim_yielded st |}
      | (fr, Ok _) =>
          let batch :=
            (slim_doc_batch st ++ [ {| SlimModels.id := current_url |} ])%list in
          if Z.of_nat (length batch) >=? _SLIM_BATCH_SIZE then
            {| slim_frontier := fr; slim_doc_batch := [];
               slim_yielded := batch :: slim_yielded st |}
          else
            {| slim_frontier := fr; slim_doc_batch := batch;
               slim_yielded := slim_yielded st |}
      end
  end.

(** Lines 427-428: the last, partial batch. *)
Definition slim_finish (st : SlimLoop F) : SlimLoop F :=
  match slim_doc_batch st with
  | [] => st
  | _ :: _ =>
      {| slim_frontier := slim_frontier st; slim_doc_batch := [];
         slim_yielded := slim_doc_batch st :: slim_yielded st |}
  end.

Fixpoint slim_crawl (clock : nat -> Z) (n : nat) (ps : list ProbeObs)
    (st : SlimLoop F) : SlimOutcome F :=
  if has_next_url (clock n) (slim_frontier st) then
    match ps with
    | [] => SlimPending st
    | p :: ps' => slim_crawl clock (S n) ps' (slim_iteration (clock n) p st)
    end
  else SlimFinished (slim_finish st) Returned.

Definition slim_initial (fr : F) : SlimLoop F :=
  {| slim_frontier := fr; slim_doc_batch := []; slim_yielded := [] |}.

Definition retrieve_all_slim_documents (self : WebConnector) (w : SlimWorld)
    : SlimOutcome F :=
  match connector_id self, credential_id self with
  | Some _, Some _ =>
      match document_ids w with
      | Raise e => SlimFinished (slim_initial new_frontier) (Raised (OtherError e))
      | Ok ids =>
          let fr := foldl (fun fr doc_id => add_url (slim_clock w 0) doc_id fr)
                          new_frontier ids in
          slim_crawl (slim_clock w) 1 (probes w) (slim_initial fr)
      end
  | _, _ =>
      SlimFinished (slim_initial new_frontier)
        (Raised (ValueError
           "Connector and Credential IDs are required for slim documents"))
  end.

End SlimLoop.

Definition slim_state {F} (r : SlimOutcome F) : SlimLoop F :=
  match r with SlimFinished st _ => st | SlimPending st => st end.

(** The batches of a slim run, oldest first. *)
Definition slim_batches {F} (r : SlimOutcome F) : list (list SlimDocument) :=
  rev (slim_yielded (slim_state r)).

(** ** Reading the effect trace (most recent event first) *)

(** Whether a rendering session is running after the events. *)
Fixpoint running_after (evs : list Event) : bool :=
  match evs with
  | [] => false
  | EvStart :: _ => true
  | EvStop :: _ => false
  | _ :: evs' => running_after evs'
  end.

(** No [EvStart] happens while a session is running. *)
Fixpoint starts_when_stopped (evs : list Event) : bool :=
  match evs with
  | [] => true
  | EvStart :: evs' => negb (running_after evs') && starts_when_stopped evs'
  | _ :: evs' => starts_when_stopped evs'
  end.

(** Every [EvYield] directly follows an [EvStop]. *)
Fixpoint yields_follow_stop (evs : list Event) : bool :=
  match evs with
  | [] => true
  | EvYield _ :: evs' =>
      match evs' with EvStop :: _ => true | _ => false end
      && yields_follow_stop evs'
  | _ :: evs' => yields_follow_stop evs'
  end.

(** All documents gathered so far, in order: those already yielded and
    those waiting in [doc_batch]. *)
Definition collected {F} (st : Loop F) : list Document :=
  (concat (batches_of (events st)) ++ doc_batch st)%list.

(** A document whose single section links to its own id. *)
Definition self_linked (d : Document) : Prop :=
  exists text, Models.sections d = [ {| Models.link := Models.id d;
                                        Models.text := text |} ]
  /\ Models.source d = Models.WEB.

(** Session bookkeeping: the trace never starts a session on top of a
    running one, [playwright_running] is what the trace says, and a
    restart is only ever pending for a stopped session. *)
Record SessionInv {F} (st : Loop F) : Prop := {
  si_disjoint : starts_when_stopped (events st) = true;
  si_running : running_after (events st) = playwright_running st;
  si_restart : restart_playwright st = true -> playwright_running st = false
}.

(** A slim run over three known ids, the second unreachable, in batches
    of 1000. *)
Definition slim_three : SlimOutcome Frontier.t :=
  retrieve_all_slim_documents
    {| mintlify_cleanup := true; batch_size := 10; recursive := false;
       tenant_id := "public"; connector_id := Some 1; credential_id := Some 2;
       to_visit_list := [] |}
    {| slim_clock := fun n => Z.of_nat n;
       document_ids := Ok ["https://a.com/1"; "https://a.com/2"; "https://a.com/3"];
       probes := [ProbeOk; ProbeSSLError "expired"; ProbeOk] |}.

(** The identity records of a slim run so far, in order. *)
Definition slim_collected {F} (st : SlimLoop F) : list SlimDocument :=
  (concat (rev (slim_yielded st)) ++ slim_doc_batch st)%list.

(** In between two turns of the slim loop the pending batch is short of
    a thousand and every batch yielded holds exactly a thousand. *)
Definition SlimInv {F} (st : SlimLoop F) : Prop :=
  (length (slim_doc_batch st) < 1000)%nat
  /\ Forall (fun b => length b = 1000%nat) (slim_yielded st).

(** Every document gathered so far carries the id of a URL that was
    probed in this run, and links to itself. *)
Definition all_probed {F} (st : Loop F) : Prop :=
  Forall (fun d => In (EvProbe (Models.id d)) (events st) /\ self_linked d)
         (collected st).

(** A sitemap with two absolute [<loc>] entries. *)
Definition two_locs : InitWorld :=
  {| sitemap_get := Ok {| locs := ["https://a.com/p"; "https://a.com/q"];
                          urlsets := 1 |};
     list_pages_for_site := Raise "unused";
     urls_file := Ok ["a.com/x"; ""; "  https://a.com/y  "] |}.

(** ** Dispatch between the two retrievals *)




(** The trace of [st] continues the trace [evs]: everything in [evs]
    happened, in that order, before whatever came later. *)
Definition trace_extends {F} (evs : list Event) (st : Loop F) : Prop :=
  exists later, events st = (later ++ evs)%list.


(** ** White space at the ends of a string *)

Fixpoint all_space (s : string) : bool :=
  match s with
  | EmptyString => true
  | String c s' => Py.is_space c && all_space s'
  end.

Definition starts_with_space (s : string) : bool :=
  match s with
  | EmptyString => false
  | String c _ => Py.is_space c
  end.

Fixpoint ends_with_space (s : string) : bool :=
  match s with
  | EmptyString => false
  | String c EmptyString => Py.is_space c
  | String _ s' => ends_with_space s'
  end.


(** * Properties *)

(** Splits a conjunction into its parts, and nothing else. *)
Ltac conjuncts := repeat match goal with |- _ /\ _ => split end.

(** ** Python strings *)

Example split_dots : Py.split "." "a.b.pdf" = ["a"; "b"; "pdf"].
Proof. reflexivity. Qed.

Example split_dotless : Py.split "." "localhost" = ["localhost"].
Proof. reflexivity. Qed.

Example str_status : Py.str 404 = "404" /\ Py.str 0 = "0" /\ Py.str (-1) = "-1".
Proof. repeat split; reflexivity. Qed.

Example int_samples :
  Py.int " 12 " = Some 12 /\ Py.int "-3" = Some (-3) /\ Py.int "1_0" = Some 10
  /\ Py.int "" = None /\ Py.int "Wed, 21 Oct 2015 07:28:00 GMT" = None
  /\ Py.int "1__0" = None /\ Py.int "5_" = None.
Proof. repeat split; reflexivity. Qed.

Example strip_sample : Py.strip "  a b  " = "a b".
Proof. reflexivity. Qed.

Lemma split_nonempty sep s : Py.split sep s <> [].
Proof. destruct s as [|c s]; simpl; [easy|]. repeat case_match; easy. Qed.

Lemma split_no_sep sep s : has_char sep s = false -> Py.split sep s = [s].
Proof.
  induction s as [|c s IH]; simpl; [easy|].
  intros [Hc Hs]%orb_false_iff. rewrite Hc, (IH Hs). reflexivity.
Qed.

Lemma split_last_no_sep sep s : has_char sep s = false -> Py.split_last sep s = s.
Proof. intros Hs. unfold Py.split_last. now rewrite split_no_sep. Qed.

Lemma split_with_sep sep s :
  has_char sep s = true -> exists p q ps, Py.split sep s = p :: q :: ps.
Proof.
  induction s as [|c s IH]; simpl; [easy|].
  destruct (Ascii.eqb c sep) eqn:Hc; simpl.
  - intros _. pose proof (split_nonempty sep s).
    destruct (Py.split sep s) as [|q ps]; [easy|]. now exists EmptyString, q, ps.
  - intros Hs. destruct (IH Hs) as (p & q & ps & ->). now exists (String c p), q, ps.
Qed.

Lemma split_last_cons sep c s :
  Py.split_last sep (String c s) =
  if has_char sep s then Py.split_last sep s
  else if Ascii.eqb c sep then s else String c s.
Proof.
  unfold Py.split_last. simpl.
  destruct (has_char sep s) eqn:Hs.
  - destruct (split_with_sep _ _ Hs) as (p & q & ps & ->).
    now destruct (Ascii.eqb c sep).
  - rewrite (split_no_sep _ _ Hs). now destruct (Ascii.eqb c sep).
Qed.

Lemma split_last_after_final_dot s : Py.split_last "." s = after_final_dot s.
Proof.
  induction s as [|c s IH]; [reflexivity|].
  rewrite split_last_cons. simpl. now rewrite IH.
Qed.

Lemma after_final_dot_app pre suf :
  has_char "." suf = false -> after_final_dot (pre +:+ String "." suf) = suf.
Proof.
  intros Hsuf. induction pre as [|c pre IH]; simpl.
  - now rewrite Hsuf.
  - rewrite IH. replace (has_char "." (pre +:+ String "." suf)) with true; [easy|].
    clear. induction pre as [|c pre IH]; simpl; [easy|].
    rewrite <- IH. now rewrite orb_true_r.
Qed.

(** ** Dispatch between the direct GET and the rendered load *)

(** [is_pdf_url] looks at the last piece of the URL cut at its dots. *)
Lemma is_pdf_url_by_last_piece :
  (forall url, is_pdf_url url = true <-> after_final_dot url = "pdf")
  /\ (forall pre suf, has_char "." suf = false ->
        (is_pdf_url (pre +:+ String "." suf) = true <-> suf = "pdf"))
  /\ is_pdf_url "https://a.com/x.pdf?v=1" = false
  /\ (forall pre, is_pdf_url (pre +:+ ".PDF") = false).
Proof.
  assert (Hmain : forall url, is_pdf_url url = true <-> after_final_dot url = "pdf").
  { intros url. unfold is_pdf_url. rewrite split_last_after_final_dot.
    apply String.eqb_eq. }
  split; [exact Hmain|]. split; [|split].
  - intros pre suf Hsuf. rewrite Hmain. now rewrite after_final_dot_app.
  - reflexivity.
  - intros pre. apply not_true_is_false. rewrite Hmain.
    now rewrite (after_final_dot_app pre "PDF").
Qed.


(** ** Reasoning about statements that may raise *)

Section Hoare.
Context {F : Type}.

Lemma preserves_ret {A} (P : Loop F -> Prop) (a : A) : preserves P (ret a).
Proof. intros st Hst. exact Hst. Qed.

Lemma preserves_raise {A} (P : Loop F -> Prop) e : preserves P (raise (A:=A) e).
Proof. intros st Hst. exact Hst. Qed.

Lemma preserves_call {A} (P : Loop F -> Prop) (r : result A) : preserves P (call r).
Proof. intros st Hst. exact Hst. Qed.

Lemma preserves_update (P : Loop F -> Prop) f :
  (forall st, P st -> P (f st)) -> preserves P (update f).
Proof. intros Hf st Hst. now apply Hf. Qed.

Lemma preserves_bind {A B} (P : Loop F -> Prop) (m : @M F A) (k : A -> @M F B) :
  preserves P m -> (forall a, preserves P (k a)) -> preserves P (bind m k).
Proof.
  intros Hm Hk st Hst. unfold bind. specialize (Hm st Hst).
  destruct (m st) as [st' [a|e]]; simpl in *; [now apply Hk | exact Hm].
Qed.

Lemma preserves_int_of (P : Loop F -> Prop) s : preserves P (int_of s).
Proof. unfold int_of. destruct (Py.int s); [apply preserves_ret | apply preserves_raise]. Qed.

End Hoare.

(** Splits a monadic statement along its structure, leaving the updates. *)
Ltac preserves_steps :=
  repeat match goal with
    | |- preserves _ (ret _) => apply preserves_ret
    | |- preserves _ (raise _) => apply preserves_raise
    | |- preserves _ (call _) => apply preserves_call
    | |- preserves _ (int_of _) => apply preserves_int_of
    | |- preserves _ (bind _ _) => apply preserves_bind; [| intros ?]
    | |- preserves _ (update _) => apply preserves_update; intros ? ?
    | |- preserves _ (if ?b then _ else _) => destruct b eqn:?
    | |- preserves _ (match ?x with _ => _ end) => destruct x eqn:?
    end.

(** ** Bookkeeping invariant of the loop *)

Section Bookkeeping.
Context `{Collaborators} {F : Type} `{URLFrontier F}.

Lemma Inv_with_frontier f (st : Loop F) : Inv st -> Inv (with_frontier f st).
Proof. intros [? ? ?]. now split. Qed.

Lemma Inv_set_restart b (st : Loop F) : Inv st -> Inv (set_restart b st).
Proof. intros [? ? ?]. now split. Qed.

Lemma Inv_append_doc d (st : Loop F) : Inv st -> Inv (append_doc d st).
Proof. intros [? ? ?]. now split. Qed.

Lemma Inv_emit e (st : Loop F) : is_yield e = false ->
  (forall m, e <> EvFault m) -> Inv st -> Inv (emit e st).
Proof.
  intros Hy Hf [? ? ?]. split; simpl.
  - now rewrite Hy.
  - destruct e; try easy. now destruct (Hf msg).
  - destruct e; try easy. now destruct (Hf msg).
Qed.

Lemma Inv_started (st : Loop F) : Inv st -> Inv (started st).
Proof. intros [? ? ?]. now split. Qed.

Lemma Inv_playwright_stop (st : Loop F) : Inv st -> Inv (playwright_stop st).
Proof. intros [? ? ?]. now split. Qed.

Lemma Inv_record_fault msg (st : Loop F) :
  Py.truthy msg = true -> Inv st -> Inv (record_fault msg st).
Proof. intros Hm [? ? ?]. split; simpl; [easy | easy | now constructor]. Qed.

Lemma Inv_yield_batch (st : Loop F) : Inv st -> Inv (yield_batch st).
Proof. intros [? ? ?]. now split. Qed.

Lemma Inv_initial (fr : F) : Inv (initial fr).
Proof. split; simpl; [easy | easy | constructor]. Qed.

Hint Resolve Inv_with_frontier Inv_set_restart Inv_append_doc Inv_started
  Inv_playwright_stop Inv_yield_batch Inv_initial : core.

Lemma visit_Inv self base_url now o current_url :
  preserves (@Inv F) (visit self base_url now o current_url).
Proof.
  unfold visit, check_internet_connection, visit_pdf, visit_page,
    add_internal_links, start_playwright.
  apply preserves_bind; [| intros ?; apply preserves_bind; [| intros ?]].
  - preserves_steps; auto; now apply Inv_emit.
  - intros st Hst. unfold restart_if_asked.
    destruct (restart_playwright st); [| exact Hst].
    refine (preserves_bind (@Inv F) _ _ _ _ st Hst);
      [unfold start_playwright | intros ?]; preserves_steps; auto.
  - preserves_steps; auto;
      first [ now apply Inv_emit | now apply Inv_record_fault ].
Qed.

Lemma iteration_Inv self base_url now o (st : Loop F) :
  Inv st -> Inv (iteration self base_url now o st).
Proof.
  intros Hst. unfold iteration.
  destruct (get_next_url now (frontier st)) as [current_url fr].
  assert (Hfr : Inv (with_frontier (fun _ => fr) st)) by auto.
  destruct current_url as [[|c u]|]; try exact Hfr.
  unfold try_visit. pose proof (visit_Inv self base_url now o (String c u) _ Hfr) as Hv.
  destruct (visit _ _ _ _ _ _) as [st' [[|]|e]]; simpl in Hv.
  - exact Hv.
  - unfold flush_if_full. destruct (_ >=? _); auto.
  - unfold on_exception. auto using Inv_record_fault.
Qed.

End Bookkeeping.

(** ** Terminal failure *)

Lemma batches_of_nil evs : batches_of evs = [] <-> existsb is_yield evs = false.
Proof.
  unfold batches_of. split.
  - intros Hrev. apply (f_equal (@rev _)) in Hrev. rewrite rev_involutive in Hrev.
    simpl in Hrev. induction evs as [|[] evs IH]; simpl in *; auto; easy.
  - intros Hex. replace (omap _ evs) with (@nil (list Document)); [easy|].
    induction evs as [|[] evs IH]; simpl in *; auto; easy.
Qed.

Lemma batches_of_skip e evs :
  is_yield e = false -> batches_of (e :: evs) = batches_of evs.
Proof. unfold batches_of. now destruct e. Qed.

Lemma batches_of_yield b evs :
  batches_of (EvYield b :: evs) = (batches_of evs ++ [b])%list.
Proof. reflexivity. Qed.

Section TerminalFailure.
Context `{Collaborators} {F : Type} `{URLFrontier F}.

Lemma finish_terminal (st st' : Loop F) t :
  Inv st -> finish st = (st', t) ->
  (existsb is_yield (events st') = false ->
     t = Raised (RuntimeError (terminal_message (events st'))))
  /\ (existsb is_yield (events st') = true -> t = Returned).
Proof.
  intros [Hy He Ht] Hfin. unfold finish in Hfin.
  destruct (doc_batch st) as [|d ds] eqn:Hb.
  - rewrite Hy in Hfin. unfold terminal_message.
    destruct (existsb is_yield (events st)) eqn:Hex; simpl in Hfin.
    + injection Hfin as <- <-. rewrite Hex. now split.
    + rewrite He in Hfin.
      destruct (faults_of (events st)) as [|m ms] eqn:Hf; simpl in Hfin.
      * injection Hfin as <- <-. rewrite Hex, Hf. now split.
      * apply Forall_cons in Ht as [Hm _]. rewrite Hm in Hfin.
        injection Hfin as <- <-. rewrite Hex, Hf. now split.
  - simpl in Hfin. injection Hfin as <- <-. simpl. now split.
Qed.

Lemma crawl_finished self base_url clock obs : forall n (st st' : Loop F) t,
  Inv st -> crawl self base_url clock n obs st = Finished st' t ->
  (existsb is_yield (events st') = false ->
     t = Raised (RuntimeError (terminal_message (events st'))))
  /\ (existsb is_yield (events st') = true -> t = Returned).
Proof.
  induction obs as [|o obs IH]; intros n st st' t Hst Hrun; simpl in Hrun;
    destruct (has_next_url (clock n) (frontier st)).
  - discriminate.
  - destruct (finish st) as [st1 t1] eqn:Hfin. injection Hrun as <- <-.
    now apply (finish_terminal st).
  - apply (IH _ _ _ _ (iteration_Inv self base_url (clock n) o st Hst) Hrun).
  - destruct (finish st) as [st1 t1] eqn:Hfin. injection Hrun as <- <-.
    now apply (finish_terminal st).
Qed.

(** A crawl that got under way and ran to the end of the frontier raises
    [RuntimeError] exactly when it yielded no batch. *)
Lemma finished_crawl_terminal self (w : World) (st : Loop F) t :
  to_visit_list self <> [] -> start0 w = Ok tt ->
  load_from_state self w = Finished st t ->
  (batches_of (events st) = [] ->
     t = Raised (RuntimeError (terminal_message (events st))))
  /\ (batches_of (events st) <> [] -> t = Returned).
Proof.
  intros Hseeds Hstart Hrun. unfold load_from_state in Hrun.
  destruct (to_visit_list self) as [|base_url urls]; [easy|].
  rewrite Hstart in Hrun.
  apply crawl_finished in Hrun; [| apply Inv_started, Inv_initial].
  destruct Hrun as [Hnone Hsome]. split.
  - intros Hb. now apply Hnone, batches_of_nil.
  - intros Hb. apply Hsome. rewrite batches_of_nil in Hb.
    now destruct (existsb is_yield (events st)).
Qed.

End TerminalFailure.

(** Every seed answers HTTP 500 to the probe: nothing is yielded and the
    error carries the last fault. *)
Example all_unreachable_raises :
  terminal all_unreachable =
    Some (Raised (RuntimeError
      "Failed to fetch 'https://a.com/y': Internal Server Error (500) for https://a.com/y - error"))
  /\ batches_of (events (final_state all_unreachable)) = [].
Proof. split; vm_compute; reflexivity. Qed.


(** ** Batching *)

(** C2: the batch check of lines 377-382 is reached only by the rendered
    path; the PDF path leaves the [try] through [continue] after its
    append.  With batch size 1 and two PDFs fetched (k = 2, so two batches
    of one document are due) the generator yields a single batch of two
    documents. *)
Theorem pdf_documents_skip_batch_check :
  terminal two_pdfs = Some Returned
  /\ map Models.id <$> batches_of (events (final_state two_pdfs))
     = [["https://a.com/a.pdf"; "https://a.com/b.pdf"]]
  /\ length <$> batches_of (events (final_state two_pdfs)) = [2%nat].
Proof. conjuncts; vm_compute; reflexivity. Qed.

(** ** Lifetime of the rendering session *)

(** C3: after the loop, [playwright.stop()] is called only together with
    the final flush.  A crawl whose only page is skipped (the render
    answers 404) raises the terminal error with the session started at
    line 262 still running; and a crawl that ends on a skipped URL after
    a full batch returns with the restarted session still running. *)
Theorem session_left_running_without_final_batch :
  (terminal soft_404 =
     Some (Raised (RuntimeError
       "Skipped indexing https://a.com/x due to HTTP 404 response"))
   /\ playwright_running (final_state soft_404) = true
   /\ rev (events (final_state soft_404)) =
        [EvStart; EvProbe "https://a.com/x"; EvGoto "https://a.com/x";
         EvFault "Skipped indexing https://a.com/x due to HTTP 404 response"])
  /\ (terminal redirect_to_visited = Some Returned
      /\ doc_batch (final_state redirect_to_visited) = []
      /\ playwright_running (final_state redirect_to_visited) = true).
Proof. conjuncts; vm_compute; reflexivity. Qed.

(** ** One iteration, path by path *)

Section Paths.
Context `{Collaborators} {F : Type} `{URLFrontier F}.
Variable self : WebConnector.
Variable base_url : string.
Variable now : Z.
Variable o : Obs.

Lemma iteration_visits (st : Loop F) current_url fr :
  get_next_url now (frontier st) = (Some current_url, fr) ->
  current_url <> "" ->
  iteration self base_url now o st =
    try_visit self base_url now o current_url (with_frontier (fun _ => fr) st).
Proof.
  intros Hnext Hurl. unfold iteration. rewrite Hnext.
  now destruct current_url.
Qed.

Lemma visit_ready current_url (st : Loop F) :
  probe o = ProbeOk ->
  (restart_playwright st = true -> restart o = Ok tt) ->
  visit self base_url now o current_url st =
    (if is_pdf_url current_url then visit_pdf now o current_url
     else visit_page self base_url now o current_url) (ready current_url st).
Proof.
  intros Hprobe Hrestart. unfold visit, check_internet_connection, bind at 1 2.
  rewrite Hprobe. unfold bind, update, ret, restart_if_asked, ready. simpl.
  destruct (restart_playwright st) eqn:Hflag; [| reflexivity].
  unfold start_playwright, bind, call, update. now rewrite Hrestart.
Qed.

Lemma ready_fields current_url (st : Loop F) :
  frontier (ready current_url st) = frontier st
  /\ doc_batch (ready current_url st) = doc_batch st
  /\ last_error (ready current_url st) = last_error st
  /\ at_least_one_doc (ready current_url st) = at_least_one_doc st
  /\ batches_of (events (ready current_url st)) = batches_of (events st)
  /\ faults_of (events (ready current_url st)) = faults_of (events st).
Proof. unfold ready. simpl. now destruct (restart_playwright st). Qed.

(** C4: when the rendered load of [current_url] ends on another URL
    ([page.url] differs from the URL requested), the iteration appends no
    document and yields nothing, records no fault, and hands the final
    URL to the frontier through [add_url]. *)
Theorem redirected_fetch_requeues_final_url (st : Loop F) current_url fr response :
  get_next_url now (frontier st) = (Some current_url, fr) ->
  current_url <> "" ->
  is_pdf_url current_url = false ->
  probe o = ProbeOk ->
  (restart_playwright st = true -> restart o = Ok tt) ->
  new_page (page o) = Ok tt ->
  goto (page o) = Ok (Some response) ->
  page_url (page o) <> current_url ->
  let st' := iteration self base_url now o st in
  frontier st' = add_url now (page_url (page o)) fr
  /\ doc_batch st' = doc_batch st
  /\ batches_of (events st') = batches_of (events st)
  /\ last_error st' = last_error st.
Proof.
  intros Hnext Hurl Hpdf Hprobe Hrestart Hpage Hgoto Hfinal. simpl.
  rewrite (iteration_visits _ _ _ Hnext Hurl). unfold try_visit.
  rewrite visit_ready by assumption. rewrite Hpdf.
  unfold visit_page, bind, call, update, ret. rewrite Hpage, Hgoto. simpl.
  apply String.eqb_neq in Hfinal. rewrite Hfinal. simpl.
  destruct (ready_fields current_url (with_frontier (fun _ => fr) st))
    as (-> & -> & -> & _ & Hb & _).
  simpl in Hb |- *. now rewrite batches_of_skip, Hb.
Qed.



End Paths.

(** A redirect seen by the frontier of the specification: the requested
    URL yields nothing and the final URL waits in the queue. *)
Lemma redirected_fetch_requeues_final_url_witness :
  let st := seeded ["http://a.com/x"] in
  let st' := iteration (Standin.connector false 10 ["http://a.com/x"])
               "http://a.com/x" 1 (Standin.rendered "http://a.com/y" 200 []) st in
  frontier st' = add_url 1 "http://a.com/y" (Frontier.next 1 (frontier st)).2
  /\ doc_batch st' = doc_batch st
  /\ batches_of (events st') = batches_of (events st)
  /\ last_error st' = last_error st.
Proof.
  apply (redirected_fetch_requeues_final_url
           (Standin.connector false 10 ["http://a.com/x"]) "http://a.com/x" 1
           (Standin.rendered "http://a.com/y" 200 [])
           (seeded ["http://a.com/x"]) "http://a.com/x"
           (Frontier.next 1 (frontier (seeded ["http://a.com/x"]))).2
           {| status := 200; header_retry_after := None;
              header_last_modified := None |}).
  - vm_compute. reflexivity.
  - discriminate.
  - reflexivity.
  - reflexivity.
  - reflexivity.
  - reflexivity.
  - reflexivity.
  - discriminate.
Defined.

Example redirect_target_is_queued :
  Frontier.queue
    (frontier (iteration (Standin.connector false 10 ["http://a.com/x"])
                 "http://a.com/x" 1 (Standin.rendered "http://a.com/y" 200 [])
                 (seeded ["http://a.com/x"])))
  = [ {| Frontier.url := "http://a.com/y"; Frontier.earliestVisitTime := 1 |} ].
Proof. vm_compute. reflexivity. Qed.



Example rate_limited_pdf_waits_in_queue :
  Frontier.queue
    (frontier (iteration (Standin.connector false 10 ["https://a.com/a.pdf"])
                 "https://a.com/a.pdf" 1 (Standin.direct 429 (Some "2") "")
                 (seeded ["https://a.com/a.pdf"])))
  = [ {| Frontier.url := "https://a.com/a.pdf"; Frontier.earliestVisitTime := 3 |} ].
Proof. vm_compute. reflexivity. Qed.



(** ** Faults inside the [try] *)

Section Faults.
Context `{Collaborators} {F : Type} `{URLFrontier F}.

(** Nothing is yielded inside the [try]. *)
Lemma visit_yields_nothing self base_url now o current_url bs :
  preserves (fun st : Loop F => batches_of (events st) = bs)
    (visit self base_url now o current_url).
Proof.
  unfold visit, check_internet_connection, visit_pdf, visit_page,
    add_internal_links, start_playwright.
  apply preserves_bind; [| intros ?; apply preserves_bind; [| intros ?]].
  - preserves_steps; simpl; now rewrite ?batches_of_skip.
  - intros st Hst. unfold restart_if_asked.
    destruct (restart_playwright st); [| exact Hst].
    refine (preserves_bind (fun st : Loop F => batches_of (events st) = bs)
              _ _ _ _ st Hst);
      [unfold start_playwright | intros ?]; preserves_steps; simpl;
      now rewrite ?batches_of_skip.
  - preserves_steps; simpl; now rewrite ?batches_of_skip.
Qed.

(** Any failure of the probe is an exception of the [try] body. *)
Lemma failed_probe_raises self base_url now o current_url (st : Loop F) :
  probe o <> ProbeOk ->
  exists st1 e, visit self base_url now o current_url st = (st1, Raise e).
Proof.
  intros Hprobe. unfold visit, check_internet_connection, bind at 1 2.
  unfold update at 1. destruct (probe o) as [|response e|cause|e|e]; [easy| | | |];
    try (eexists _, _; reflexivity).
  destruct (_ =? 429); eexists _, _; reflexivity.
Qed.

(** The handler, and one step of the loop after it. *)
Lemma handler_after_fault self base_url clock n o obs
    (st st1 : Loop F) current_url fr e :
  has_next_url (clock n) (frontier st) = true ->
  get_next_url (clock n) (frontier st) = (Some current_url, fr) ->
  current_url <> "" ->
  visit self base_url (clock n) o current_url (with_frontier (fun _ => fr) st)
    = (st1, Raise e) ->
  let st' := iteration self base_url (clock n) o st in
  last_error st' = Some ("Failed to fetch '" +:+ current_url +:+ "': " +:+ e)
  /\ playwright_running st' = false
  /\ restart_playwright st' = true
  /\ (forall next_url, playwright_running (ready next_url st') = true)
  /\ doc_batch st' = doc_batch st1
  /\ frontier st' = frontier st1
  /\ batches_of (events st') = batches_of (events st)
  /\ crawl self base_url clock n (o :: obs) st
     = crawl self base_url clock (S n) obs st'.
Proof.
  intros Hmore Hnext Hurl Hraise. simpl.
  rewrite Hmore, (iteration_visits _ _ _ _ _ _ _ Hnext Hurl).
  unfold try_visit. rewrite Hraise. repeat split.
  pose proof (visit_yields_nothing self base_url (clock n) o current_url
                (batches_of (events st)) (with_frontier (fun _ => fr) st)
                eq_refl) as Hb.
  rewrite Hraise in Hb. simpl in Hb |- *. now rewrite !batches_of_skip.
Qed.

End Faults.

Example crawl_goes_on_after_fault :
  terminal fault_then_page = Some Returned
  /\ map Models.id <$> batches_of (events (final_state fault_then_page))
     = [["https://a.com/y"]]
  /\ rev (events (final_state fault_then_page)) =
       [ EvStart; EvProbe "https://a.com/x";
         EvFault "Failed to fetch 'https://a.com/x': Internal Server Error (500) for https://a.com/x - error";
         EvStop; EvProbe "https://a.com/y"; EvStart; EvGoto "https://a.com/y";
         EvStop;
         EvYield [ html_document "https://a.com/y"
                     {| title := None; cleaned_text := "text" |} None ] ].
Proof. conjuncts; vm_compute; reflexivity. Qed.


(** ** Link extraction *)

Lemma append_cons c (s t : string) : String c s +:+ t = String c (s +:+ t).
Proof. reflexivity. Qed.

Lemma append_nil (t : string) : "" +:+ t = t.
Proof. reflexivity. Qed.

Lemma prefix_spec n h : String.prefix n h = true <-> exists b, h = n +:+ b.
Proof.
  revert h. induction n as [|c n IH]; intros h.
  - split; [intros _; now exists h | now destruct h].
  - destruct h as [|c' h]; simpl; [split; [easy | now intros [b Hb]]|].
    destruct (ascii_dec c c') as [->|Hc].
    + rewrite IH. split; intros [b Hb]; exists b;
        rewrite append_cons in *; congruence.
    + split; [easy|]. intros [b Hb]. rewrite append_cons in Hb. congruence.
Qed.

(** [needle in hay] holds exactly when [hay] has [needle] as a substring. *)
Lemma contains_spec n h :
  Py.contains n h = true <-> exists a b, h = a +:+ n +:+ b.
Proof.
  induction h as [|c h IH].
  - change (Py.contains n "") with (String.prefix n "" || false).
    rewrite orb_false_r, prefix_spec. split.
    + intros [b Hb]. now exists "", b.
    + intros (a & b & Hab). destruct a; [now exists b|].
      now rewrite append_cons in Hab.
  - change (Py.contains n (String c h))
      with (String.prefix n (String c h) || Py.contains n h).
    rewrite orb_true_iff, IH, prefix_spec. split.
    + intros [[b Hb] | (a & b & Hab)].
      * now exists "", b.
      * exists (String c a), b. now rewrite append_cons, Hab.
    + intros (a & b & Hab). destruct a as [|c' a].
      * left. now exists b.
      * right. exists a, b. rewrite append_cons in Hab. congruence.
Qed.

Section LinkExtraction.
Context `{Collaborators}.

Lemma is_internal_spec base_url url link :
  is_internal base_url url link = Ok true <->
  (exists p q, urlparse link = Ok p /\ urlparse url = Ok q
               /\ netloc p = netloc q)
  /\ Py.contains base_url link = true.
Proof.
  unfold is_internal, result_bind.
  destruct (urlparse link) as [p|e]; [| split; [easy | now intros [(? & ? & ? & _) _]]].
  destruct (urlparse url) as [q|e]; [| split; [easy | now intros [(? & ? & _ & ? & _) _]]].
  split.
  - intros [= Hkeep]. apply andb_true_iff in Hkeep as [Heq Hin].
    apply String.eqb_eq in Heq. split; [now exists p, q | exact Hin].
  - intros [(p' & q' & [= <-] & [= <-] & Heq) Hin].
    apply String.eqb_eq in Heq. now rewrite Heq, Hin.
Qed.

Lemma collect_links_spec base_url url pound links :
  forall internal_links result,
  collect_links base_url url pound links internal_links = Ok result ->
  forall link, link ∈ result <->
    link ∈ internal_links
    \/ exists href, Some href ∈ links /\ href <> ""
         /\ resolve_href url (strip_pound pound (fix_backslashes href)) = Ok link
         /\ is_internal base_url url link = Ok true.
Proof.
  induction links as [|a links IH]; intros acc result Hrun link; simpl in Hrun.
  - injection Hrun as <-. split; [now left|].
    intros [Hin | (href & Hin & _)]; [exact Hin | now apply elem_of_nil in Hin].
  - destruct a as [[|c h]|].
    + rewrite (IH _ _ Hrun). apply or_iff_compat_l.
      split; intros (href & Hin & Hne & Hrest); exists href;
        (split; [| easy]).
      * now right.
      * apply elem_of_cons in Hin as [[= ->] | Hin]; easy.
    + unfold result_bind in Hrun.
      destruct (resolve_href url _) as [r|e] eqn:Hres; [| easy].
      destruct (is_internal base_url url r) as [keep|e] eqn:Hkeep; [| easy].
      rewrite (IH _ _ Hrun). split.
      * intros [Hacc | (href & Hin & Hrest)].
        -- destruct keep; [apply elem_of_union in Hacc as [Hacc | Hnew] |];
             [now left | | now left].
           apply elem_of_singleton in Hnew as ->. right.
           exists (String c h). split; [now left | easy].
        -- right. exists href. split; [now right | easy].
      * intros [Hacc | (href & Hin & Hne & Hr & Hi)].
        -- left. destruct keep; [apply elem_of_union; now left | exact Hacc].
        -- apply elem_of_cons in Hin as [[= ->] | Hin].
           ++ left. rewrite Hres in Hr. injection Hr as ->.
              rewrite Hkeep in Hi. injection Hi as ->.
              apply elem_of_union. right. now apply elem_of_singleton.
           ++ right. now exists href.
    + rewrite (IH _ _ Hrun). apply or_iff_compat_l.
      split; intros (href & Hin & Hrest); exists href; (split; [| easy]).
      * now right.
      * now apply elem_of_cons in Hin as [? | Hin].
Qed.

End LinkExtraction.

Section Scoping.
Context `{Collaborators} {F : Type} `{URLFrontier F}.

(** C6, as the code has it: the links handed to the frontier in recursive
    mode are exactly the non-empty [href]s (backslashes turned, fragment
    cut, resolved against the current page) whose netloc is that of the
    current page and which contain the base URL as a substring.  The
    comparison is with the page being visited, not with the seed. *)
Theorem internal_links_follow_the_current_page self base_url now current_url
    soup links (st : Loop F) :
  get_internal_links base_url current_url soup true = Ok links ->
  (forall link, link ∈ links <->
     exists href, Some href ∈ anchors soup /\ href <> ""
       /\ resolve_href current_url (strip_pound true (fix_backslashes href))
          = Ok link
       /\ (exists p q, urlparse link = Ok p /\ urlparse current_url = Ok q
                       /\ netloc p = netloc q)
       /\ (exists a b, link = a +:+ base_url +:+ b))
  /\ (recursive self = true ->
      add_internal_links self base_url now current_url soup st
      = (with_frontier (links_added now links) st, Ok tt))
  /\ (recursive self = false ->
      add_internal_links self base_url now current_url soup st = (st, Ok tt)).
Proof.
  intros Hlinks. split; [| split].
  - intros link. unfold get_internal_links in Hlinks.
    rewrite (collect_links_spec _ _ _ _ _ _ Hlinks link).
    split.
    + intros [Hin | (href & Hin & Hne & Hres & Hint)];
        [now apply not_elem_of_empty in Hin|].
      apply is_internal_spec in Hint as [Hhost Hbase].
      apply contains_spec in Hbase. now exists href.
    + intros (href & Hin & Hne & Hres & Hhost & Hbase). right.
      exists href. repeat split; try assumption.
      apply is_internal_spec. split; [exact Hhost | now apply contains_spec].
  - intros Hrec. unfold add_internal_links, bind, call, update.
    now rewrite Hrec, Hlinks.
  - intros Hrec. unfold add_internal_links. now rewrite Hrec.
Qed.

End Scoping.

(** C6 as stated fails where it speaks of the seed's host: after a
    redirect to another host, a link of that host which merely mentions
    the base URL passes the test, is queued and is fetched.  And an
    anchor with an empty [href] is skipped although it resolves to the
    current page. *)
Lemma off_site_link_reaches_the_frontier :
  let seed := "https://a.com/" in
  let page := "https://b.com/login?next=https://a.com/" in
  let link := "https://b.com/help?next=https://a.com/" in
  Standin.urlparse link = Ok {| scheme := "https"; netloc := "b.com" |}
  /\ Standin.urlparse seed = Ok {| scheme := "https"; netloc := "a.com" |}
  /\ get_internal_links seed page {| anchors := [Some link]; markup := "" |} true
     = Ok {[ link ]}
  /\ In (EvGoto link) (events (final_state off_site_redirect))
  /\ get_internal_links seed seed {| anchors := [Some ""]; markup := "" |} true
     = Ok ∅
  /\ resolve_href seed "" = Ok seed
  /\ is_internal seed seed seed = Ok true.
Proof.
  intros seed page link. conjuncts; vm_compute; try reflexivity. tauto.
Qed.

Lemma internal_links_follow_the_current_page_witness :
  let self := Standin.connector true 10 ["https://a.com/docs"] in
  let st := seeded ["https://a.com/docs"] in
  add_internal_links self "https://a.com/docs" 1 "https://a.com/docs/"
    docs_page st
  = (with_frontier (links_added 1 {[ "https://a.com/docs/intro" ]}) st, Ok tt).
Proof.
  refine (proj1 (proj2 (internal_links_follow_the_current_page
           (Standin.connector true 10 ["https://a.com/docs"])
           "https://a.com/docs" 1 "https://a.com/docs/" docs_page
           {[ "https://a.com/docs/intro" ]}
           (seeded ["https://a.com/docs"]) _)) eq_refl).
  vm_compute. reflexivity.
Defined.

(** ** Errors raised before the crawl *)

(** C9: construction raises for any mode selector outside the four
    variants, whatever the outside would answer; and [load_from_state] on
    an empty seed list raises ["No URLs to visit"] at once: no session
    was started, nothing was probed or fetched, whatever the world. *)
Theorem invalid_mode_and_empty_seeds_raise_at_once :
  (forall (C : Collaborators) iw base_url web_connector_type mintlify
          batch tenant connector credential,
     web_connector_type ∉ ["recursive"; "single"; "sitemap"; "upload"] ->
     __init__ iw base_url web_connector_type mintlify batch tenant
       connector credential
     = Raise "Invalid Web Connector Config, must choose a valid type between: ")
  /\ (forall (C : Collaborators) (F : Type) (Fr : URLFrontier F) self w,
     to_visit_list self = [] ->
     exists st : Loop F,
       load_from_state self w = Finished st (Raised (ValueError "No URLs to visit"))
       /\ events st = [] /\ playwright_running st = false).
Proof.
  split.
  - intros C iw base_url ty mintlify batch tenant connector credential Hty.
    unfold __init__, WEB_CONNECTOR_VALID_SETTINGS.RECURSIVE,
      WEB_CONNECTOR_VALID_SETTINGS.SINGLE, WEB_CONNECTOR_VALID_SETTINGS.SITEMAP,
      WEB_CONNECTOR_VALID_SETTINGS.UPLOAD.
    assert (Hne : forall s, s ∈ ["recursive"; "single"; "sitemap"; "upload"] ->
                        String.eqb ty s = false).
    { intros s Hs. apply String.eqb_neq. intros ->. exact (Hty Hs). }
    rewrite !Hne by set_solver. reflexivity.
  - intros C F Fr self w Hseeds. unfold load_from_state. rewrite Hseeds.
    now eexists.
Qed.

Example blank_upload_has_no_seeds :
  to_visit_list <$>
    match __init__ blank_upload "urls.txt" "upload" true 10 "public" None None with
    | Ok self => Some self
    | Raise _ => None
    end = Some [].
Proof. vm_compute. reflexivity. Qed.

Lemma invalid_mode_and_empty_seeds_raise_at_once_witness :
  __init__ blank_upload "https://a.com/" "Recursive" true 10 "public" None None
  = Raise "Invalid Web Connector Config, must choose a valid type between: "
  /\ exists st : Loop Frontier.t,
       load_from_state (Standin.connector false 10 [])
         (Standin.world [Standin.rendered "https://a.com/" 200 []])
       = Finished st (Raised (ValueError "No URLs to visit"))
       /\ events st = [] /\ playwright_running st = false.
Proof.
  split.
  - apply (proj1 invalid_mode_and_empty_seeds_raise_at_once).
    intros Hin. repeat (apply elem_of_cons in Hin as [Hin | Hin]; [discriminate|]).
    now apply elem_of_nil in Hin.
  - apply (proj2 invalid_mode_and_empty_seeds_raise_at_once). reflexivity.
Defined.

(** * Further properties of the connector *)

(** ** URL helpers and construction *)

Lemma ensured_contains_scheme url :
  Py.contains "://" (_ensure_valid_url url) = true.
Proof.
  unfold _ensure_valid_url.
  destruct (Py.contains "://" url) eqn:Hurl; cbn [negb]; [exact Hurl|].
  apply contains_spec. now exists "https", url.
Qed.

(** [_ensure_valid_url] always returns a URL with a scheme separator,
    leaves such URLs alone, and is idempotent. *)
Theorem ensure_valid_url_has_scheme url :
  Py.contains "://" (_ensure_valid_url url) = true
  /\ (Py.contains "://" url = true -> _ensure_valid_url url = url)
  /\ (Py.contains "://" url = false -> _ensure_valid_url url = "https://" +:+ url)
  /\ _ensure_valid_url (_ensure_valid_url url) = _ensure_valid_url url.
Proof.
  assert (Hadd : Py.contains "://" ("https://" +:+ url) = true).
  { apply contains_spec. now exists "https", url. }
  unfold _ensure_valid_url.
  destruct (Py.contains "://" url) eqn:Hurl; cbn [negb].
  - rewrite Hurl. cbn [negb]. now conjuncts.
  - rewrite Hadd. cbn [negb]. now conjuncts.
Qed.

Section ConstructionProperties.
Context `{Collaborators}.

(** [_read_urls_file] gives one URL with a scheme per non-blank line. *)
Lemma read_urls_file_counts iw lines :
  urls_file iw = Ok lines ->
  exists urls,
    _read_urls_file iw = Ok urls
    /\ Forall (fun u => Py.contains "://" u = true) urls
    /\ length urls = length (filter (fun l => Py.strip l <> "") lines)
    /\ (urls = [] <-> Forall (fun l => Py.strip l = "") lines).
Proof.
  intros Hfile. unfold _read_urls_file, result_bind. rewrite Hfile.
  eexists. split; [reflexivity|].
  clear Hfile. induction lines as [|l lines IH]; [now conjuncts|].
  destruct IH as (IH1 & IH2 & IH3). rewrite !filter_cons.
  destruct (Py.strip l) as [|c s] eqn:Hl; simpl.
  - split; [exact IH1|]. split; [exact IH2|]. rewrite IH3.
    split; [now constructor | now intros [_ ?]%Forall_cons].
  - split; [|split].
    + constructor; [| exact IH1]. rewrite Hl.
      apply ensured_contains_scheme.
    + now rewrite IH2.
    + split; [easy|]. intros [Hblank _]%Forall_cons. congruence.
Qed.

Lemma extracted_urls_nonempty iw sitemap_url urls :
  extract_urls_from_sitemap iw sitemap_url = Ok urls -> urls <> [].
Proof.
  unfold extract_urls_from_sitemap, result_bind.
  destruct (sitemap_get iw) as [soup|]; [|easy].
  destruct (result_map _ _) as [found|]; [|easy].
  destruct (_ && _).
  - destruct (list_pages_for_site iw) as [[|u us]|]; simpl; [easy| |easy].
    now intros [= <-].
  - destruct found as [|u us]; simpl; [easy|]. now intros [= <-].
Qed.

(** [extract_urls_from_sitemap] never succeeds with an empty list: with
    no [<loc>] and no URL from the site discovery it raises. *)
Theorem sitemap_urls_never_empty iw sitemap_url urls :
  extract_urls_from_sitemap iw sitemap_url = Ok urls -> urls <> [].
Proof. apply extracted_urls_nonempty. Qed.

Lemma result_map_absolute sitemap_url locs :
  Forall (fun loc => exists p, urlparse loc = Ok p /\ Py.truthy (netloc p) = true)
         locs ->
  result_map (_ensure_absolute_url sitemap_url) locs = Ok locs.
Proof.
  induction 1 as [|loc locs (p & Hp & Hnet) _ IH]; [reflexivity|].
  simpl. unfold _ensure_absolute_url at 1, result_bind. rewrite Hp, Hnet. simpl.
  unfold result_bind in IH |- *. now rewrite IH.
Qed.

(** A sitemap whose [<loc>] entries are absolute URLs yields exactly
    those URLs, in document order, without consulting the site
    discovery. *)
Theorem sitemap_absolute_locs_in_order iw sitemap_url soup :
  sitemap_get iw = Ok soup ->
  locs soup <> [] ->
  Forall (fun loc => exists p, urlparse loc = Ok p /\ Py.truthy (netloc p) = true)
         (locs soup) ->
  extract_urls_from_sitemap iw sitemap_url = Ok (locs soup).
Proof.
  intros Hget Hne Habs. unfold extract_urls_from_sitemap, result_bind.
  rewrite Hget, (result_map_absolute _ _ Habs).
  destruct (locs soup) as [|loc ls]; [easy|]. reflexivity.
Qed.

End ConstructionProperties.

Section ConstructedConnector.
Context `{Collaborators}.

(** When construction succeeds, the mode was one of the four variants,
    only the recursive mode sets the [recursive] flag, the recursive and
    single modes seed exactly the base URL (with a scheme), and every
    mode but upload leaves at least one seed. *)
Theorem constructed_connector_is_seeded iw base_url ty mintlify batch tenant
    connector credential self :
  __init__ iw base_url ty mintlify batch tenant connector credential = Ok self ->
  ty ∈ ["recursive"; "single"; "sitemap"; "upload"]
  /\ recursive self = String.eqb ty "recursive"
  /\ (ty = "recursive" \/ ty = "single" ->
      to_visit_list self = [_ensure_valid_url base_url])
  /\ (ty <> "upload" -> to_visit_list self <> [])
  /\ batch_size self = batch
  /\ mintlify_cleanup self = mintlify.
Proof.
  unfold __init__, WEB_CONNECTOR_VALID_SETTINGS.RECURSIVE,
    WEB_CONNECTOR_VALID_SETTINGS.SINGLE, WEB_CONNECTOR_VALID_SETTINGS.SITEMAP,
    WEB_CONNECTOR_VALID_SETTINGS.UPLOAD.
  destruct (String.eqb_spec ty "recursive") as [-> | Hrec].
  { intros [= <-]. simpl. conjuncts; try easy. set_solver. }
  destruct (String.eqb_spec ty "single") as [-> | Hsingle].
  { intros [= <-]. simpl. conjuncts; try easy. set_solver. }
  destruct (String.eqb_spec ty "sitemap") as [-> | Hsitemap].
  { unfold result_bind.
    destruct (extract_urls_from_sitemap _ _) as [urls|] eqn:Hurls; [|easy].
    intros [= <-]. simpl. conjuncts; try easy.
    - set_solver.
    - now intros [? | ?].
    - intros _. now apply extracted_urls_nonempty in Hurls. }
  destruct (String.eqb_spec ty "upload") as [-> | Hupload]; [|easy].
  unfold result_bind. destruct (_read_urls_file iw) as [urls|]; [|easy].
  intros [= <-]. simpl. conjuncts; try easy.
  - set_solver.
  - now intros [? | ?].
Qed.

End ConstructedConnector.

(** ** The reachability probe *)

Section Probe.
Context `{Collaborators} {F : Type} `{URLFrontier F}.

Lemma probe_result now url p (st : Loop F) :
  (check_internet_connection now url p st).2 = Ok tt <-> p = ProbeOk.
Proof.
  unfold check_internet_connection, bind, update, ret, raise.
  destruct p as [|response e|cause|e|e]; simpl; try easy.
  now destruct (_ =? 429).
Qed.

Lemma probe_events now url p (st : Loop F) :
  events (check_internet_connection now url p st).1 = EvProbe url :: events st
  /\ doc_batch (check_internet_connection now url p st).1 = doc_batch st.
Proof.
  unfold check_internet_connection, bind, update, ret, raise.
  destruct p as [|response e|cause|e|e]; simpl; try easy.
  now destruct (_ =? 429).
Qed.

(** [check_internet_connection] returns normally only for a reachable
    URL and raises otherwise.  It touches the frontier only on a 429,
    which it hands to [handle_ratelimit] with the raw [Retry-After]
    header, or with 5 when the header is absent; nothing else of the
    loop's state changes. *)
Theorem probe_touches_frontier_only_on_429 now url p (st : Loop F) :
  let '(st', r) := check_internet_connection now url p st in
  (r = Ok tt <-> p = ProbeOk)
  /\ events st' = EvProbe url :: events st
  /\ doc_batch st' = doc_batch st
  /\ last_error st' = last_error st
  /\ playwright_running st' = playwright_running st
  /\ restart_playwright st' = restart_playwright st
  /\ frontier st' =
       match p with
       | ProbeHTTPError (Some (429, header)) _ =>
           handle_ratelimit now url
             (match header with Some h => RetryStr h | None => RetryInt 5 end)
             (frontier st)
       | _ => frontier st
       end.
Proof.
  unfold check_internet_connection, bind, update, ret, raise.
  destruct p as [|[[code header]|] e|cause|e|e]; simpl; try (now conjuncts).
  destruct (code =? 429) eqn:Hcode; simpl.
  - apply Z.eqb_eq in Hcode as ->. now conjuncts.
  - conjuncts; try easy. apply Z.eqb_neq in Hcode.
    destruct code as [|code|code]; try easy.
    repeat (destruct code as [code|code|]; try easy).
Qed.

End Probe.

(** ** Status classes *)

(** For a three-digit status the rendered path's test on the leading
    digit is the test for the 4xx and 5xx classes. *)
Theorem error_status_is_4xx_or_5xx status :
  100 <= status < 1000 ->
  is_error_status status = (400 <=? status) && (status <? 600).
Proof.
  intros Hrange.
  assert (Hall : forallb (fun n => Bool.eqb (is_error_status (Z.of_nat n))
                                    ((400 <=? Z.of_nat n) && (Z.of_nat n <? 600)))
                         (seq 100 900) = true) by (vm_compute; reflexivity).
  rewrite forallb_forall in Hall.
  specialize (Hall (Z.to_nat status)).
  rewrite Z2Nat.id in Hall by lia.
  apply Bool.eqb_prop, Hall, in_seq. lia.
Qed.

Lemma error_status_is_4xx_or_5xx_witness :
  is_error_status 503 = (400 <=? 503) && (503 <? 600).
Proof. apply error_status_is_4xx_or_5xx. lia. Defined.

(** ** The slim reconciliation loop *)

Section SlimProperties.
Context `{Collaborators} {F : Type} `{URLFrontier F}.

Lemma slim_probe_ok now url p (fr : F) :
  (slim_probe now url p fr).2 = Ok tt <-> p = ProbeOk.
Proof.
  unfold slim_probe.
  pose proof (probe_result now url p (initial fr)) as Hp.
  now destruct (check_internet_connection _ _ _ _).
Qed.

Lemma slim_iteration_Inv now p (st : SlimLoop F) :
  SlimInv st -> SlimInv (slim_iteration now p st).
Proof.
  intros [Hlen Hfull]. unfold slim_iteration.
  destruct (get_next_url now (slim_frontier st)) as [[url|] fr]; [| now split].
  destruct (slim_probe now url p fr) as [fr' [[]|e]]; [| now split].
  unfold _SLIM_BATCH_SIZE. rewrite Z.geb_leb.
  destruct (Z.leb_spec 1000 (Z.of_nat (length (slim_doc_batch st ++
              [{| SlimModels.id := url |}])))) as [Hge | Hlt];
    rewrite length_app in *; simpl in *; split; simpl.
  - lia.
  - constructor; [| exact Hfull]. rewrite length_app. simpl. lia.
  - rewrite length_app. simpl. lia.
  - exact Hfull.
Qed.

Lemma slim_crawl_Inv clock ps : forall n (st : SlimLoop F),
  SlimInv st ->
  match slim_crawl clock n ps st with
  | SlimPending st' => SlimInv st'
  | SlimFinished st' t =>
      t = Returned /\ slim_doc_batch st' = []
      /\ (Forall (fun b => length b = 1000%nat) (slim_yielded st')
          \/ exists b bs, slim_yielded st' = b :: bs
                          /\ (0 < length b < 1000)%nat
                          /\ Forall (fun b => length b = 1000%nat) bs)
  end.
Proof.
  induction ps as [|p ps IH]; intros n st Hst; simpl;
    destruct (has_next_url (clock n) (slim_frontier st)); try exact Hst.
  - destruct Hst as [Hlen Hfull]. unfold slim_finish.
    destruct (slim_doc_batch st) as [|d ds] eqn:Hb; simpl.
    + now conjuncts; [| | left].
    + conjuncts; [easy | easy |]. right. exists (d :: ds), (slim_yielded st).
      simpl in *. conjuncts; [easy | lia | lia | easy].
  - apply IH. now apply slim_iteration_Inv.
  - destruct Hst as [Hlen Hfull]. unfold slim_finish.
    destruct (slim_doc_batch st) as [|d ds] eqn:Hb; simpl.
    + now conjuncts; [| | left].
    + conjuncts; [easy | easy |]. right. exists (d :: ds), (slim_yielded st).
      simpl in *. conjuncts; [easy | lia | lia | easy].
Qed.

Lemma slim_initial_Inv (fr : F) : SlimInv (slim_initial fr).
Proof. split; simpl; [lia | constructor]. Qed.

Lemma slim_run_yielded self w :
  let st := slim_state (retrieve_all_slim_documents self w) in
  Forall (fun b => length b = 1000%nat) (slim_yielded st)
  \/ exists b bs, slim_yielded st = b :: bs
                  /\ (0 < length b < 1000)%nat
                  /\ Forall (fun b => length b = 1000%nat) bs.
Proof.
  unfold retrieve_all_slim_documents.
  destruct (connector_id self), (credential_id self); simpl; try (now left).
  destruct (document_ids w) as [ids|e]; simpl; [| now left].
  match goal with |- context [slim_crawl ?c ?n ?ps ?st] =>
    pose proof (slim_crawl_Inv c ps n st) as Hrun end.
  destruct (slim_crawl _ _ _ _) as [st t | st]; simpl.
  - apply Hrun, slim_initial_Inv.
  - left. apply Hrun, slim_initial_Inv.
Qed.

(** Slim batches are never empty and never exceed a thousand records,
    and every batch but the last one holds exactly a thousand. *)
Theorem slim_batches_hold_a_thousand self w :
  let batches := slim_batches (retrieve_all_slim_documents self w) in
  Forall (fun b => (0 < length b <= 1000)%nat) batches
  /\ forall i b, batches !! i = Some b -> (S i < length batches)%nat ->
       length b = 1000%nat.
Proof.
  simpl. unfold slim_batches.
  destruct (slim_run_yielded self w) as [Hfull | (b & bs & -> & Hb & Hfull)].
  - split.
    + apply Forall_rev. eapply Forall_impl; [exact Hfull|]. simpl. lia.
    + intros i b Hi _. apply Forall_rev in Hfull.
      now apply (Forall_lookup_1 _ _ _ _ Hfull Hi).
  - simpl. split.
    + apply Forall_app. split.
      * apply Forall_rev. eapply Forall_impl; [exact Hfull|]. simpl. lia.
      * constructor; [lia | constructor].
    + intros i b' Hi Hlt. rewrite length_app in Hlt. simpl in Hlt.
      rewrite lookup_app_l in Hi by lia.
      apply Forall_rev in Hfull. now apply (Forall_lookup_1 _ _ _ _ Hfull Hi).
Qed.

(** Without a connector or credential id the slim run raises
    [ValueError] before looking at anything; with both, and the stored
    ids read, a run that finishes always returns, with nothing left in
    the pending batch, however many URLs were unreachable. *)
Theorem slim_run_raises_only_without_ids self w st t :
  retrieve_all_slim_documents self w = SlimFinished st t ->
  (connector_id self = None \/ credential_id self = None ->
     t = Raised (ValueError
           "Connector and Credential IDs are required for slim documents")
     /\ slim_yielded st = [])
  /\ (forall ids, connector_id self <> None -> credential_id self <> None ->
      document_ids w = Ok ids ->
      t = Returned /\ slim_doc_batch st = []).
Proof.
  unfold retrieve_all_slim_documents.
  destruct (connector_id self) as [c|], (credential_id self) as [d|];
    try (intros [= <- <-]; split; [easy | now intros ids ? ?]).
  destruct (document_ids w) as [ids|e] eqn:Hids.
  - intros Hrun. split; [now intros [? | ?]|].
    intros ids' _ _ _.
    match type of Hrun with slim_crawl ?c ?n ?ps ?st0 = _ =>
      pose proof (slim_crawl_Inv c ps n st0) as Hinv end.
    rewrite Hrun in Hinv.
    destruct (Hinv (slim_initial_Inv _)) as (-> & -> & _). now split.
  - intros [= <- <-]. split; [now intros [? | ?] | now intros ids ? ?].
Qed.

(** One turn of the slim loop records the URL the frontier handed out
    exactly when its probe passed (an empty URL included), and drops it
    without a trace otherwise; the records already made stay in order. *)
Theorem slim_turn_records_reachable_urls now p (st : SlimLoop F) url fr :
  get_next_url now (slim_frontier st) = (Some url, fr) ->
  slim_collected (slim_iteration now p st) =
    match p with
    | ProbeOk => (slim_collected st ++ [ {| SlimModels.id := url |} ])%list
    | _ => slim_collected st
    end.
Proof.
  intros Hnext. unfold slim_iteration. rewrite Hnext.
  pose proof (slim_probe_ok now url p fr) as Hp.
  destruct (slim_probe now url p fr) as [fr' [[]|e]]; simpl in Hp.
  - rewrite (proj1 Hp eq_refl). unfold slim_collected.
    destruct (_ >=? _); simpl.
    + rewrite concat_app, app_nil_r. simpl. now rewrite app_nil_r, app_assoc.
    + now rewrite app_assoc.
  - destruct p; [discriminate (proj2 Hp eq_refl) | | | |]; reflexivity.
Qed.

End SlimProperties.

Example slim_three_skips_unreachable :
  slim_batches slim_three
  = [[ {| SlimModels.id := "https://a.com/1" |};
       {| SlimModels.id := "https://a.com/3" |} ]].
Proof. vm_compute. reflexivity. Qed.

Lemma slim_run_raises_only_without_ids_witness :
  (Some 1 = None \/ Some 2 = None ->
     Returned = Raised (ValueError
       "Connector and Credential IDs are required for slim documents")
     /\ slim_yielded (slim_state slim_three) = [])
  /\ (forall ids, Some 1 <> None -> Some 2 <> None ->
      Ok ["https://a.com/1"; "https://a.com/2"; "https://a.com/3"] = Ok ids ->
      Returned = Returned /\ slim_doc_batch (slim_state slim_three) = []).
Proof.
  apply (slim_run_raises_only_without_ids
           {| mintlify_cleanup := true; batch_size := 10; recursive := false;
              tenant_id := "public"; connector_id := Some 1;
              credential_id := Some 2; to_visit_list := [] |}
           {| slim_clock := fun n => Z.of_nat n;
              document_ids :=
                Ok ["https://a.com/1"; "https://a.com/2"; "https://a.com/3"];
              probes := [ProbeOk; ProbeSSLError "expired"; ProbeOk] |}).
  vm_compute. reflexivity.
Defined.

Lemma slim_turn_records_reachable_urls_witness :
  let st := slim_initial (Frontier.add 0 "https://a.com/1" Frontier.empty) in
  slim_collected (slim_iteration 1 ProbeOk st) =
    (slim_collected st ++ [ {| SlimModels.id := "https://a.com/1" |} ])%list.
Proof.
  apply (slim_turn_records_reachable_urls 1 ProbeOk
           (slim_initial (Frontier.add 0 "https://a.com/1" Frontier.empty))
           "https://a.com/1"
           (Frontier.next 1 (Frontier.add 0 "https://a.com/1" Frontier.empty)).2).
  vm_compute. reflexivity.
Defined.

(** ** Invariants of whole crawls *)

Section CrawlInvariants.
Context `{Collaborators} {F : Type} `{URLFrontier F}.

Lemma bind_ok {A B} (m : @M F A) (k : A -> @M F B) st st' b :
  bind m k st = (st', Ok b) ->
  exists a st1, m st = (st1, Ok a) /\ k a st1 = (st', Ok b).
Proof.
  unfold bind. destruct (m st) as [st1 [a|e]]; [| easy].
  intros Hk. now exists a, st1.
Qed.

(** The direct GET never runs into the batch check. *)
Lemma visit_pdf_continues now o current_url (st st' : Loop F) flow :
  visit_pdf now o current_url st = (st', Ok flow) -> flow = Continue.
Proof.
  unfold visit_pdf, bind, call, update, ret, raise, int_of.
  intros Hv. repeat case_match; simplify_eq; reflexivity.
Qed.

(** The rendered load reaches the batch check only after an append. *)
Lemma visit_page_falls_through self base_url now o current_url (st st' : Loop F) :
  visit_page self base_url now o current_url st = (st', Ok FallThrough) ->
  doc_batch st' <> [].
Proof.
  unfold visit_page, add_internal_links, bind, call, update, ret, raise, int_of.
  intros Hv. repeat case_match; simplify_eq; simpl;
    (intros Hnil; apply app_eq_nil in Hnil as [_ Hnil]; discriminate).
Qed.

Lemma visit_falls_through self base_url now o current_url (st st' : Loop F) :
  visit self base_url now o current_url st = (st', Ok FallThrough) ->
  doc_batch st' <> [].
Proof.
  unfold visit. intros Hv.
  apply bind_ok in Hv as (? & st1 & _ & Hv).
  apply bind_ok in Hv as (? & st2 & _ & Hv).
  destruct (is_pdf_url current_url).
  - now apply visit_pdf_continues in Hv.
  - now apply visit_page_falls_through in Hv.
Qed.

Lemma restart_preserves (P : Loop F -> Prop) r :
  (forall st, restart_playwright st = true -> P st ->
              P (set_restart false (started st))) ->
  preserves P (restart_if_asked r).
Proof.
  intros Hstart st Hst. unfold restart_if_asked.
  destruct (restart_playwright st) eqn:Hflag; [| exact Hst].
  unfold start_playwright, bind, call, update.
  destruct r as [[]|e]; simpl; [now apply Hstart | exact Hst].
Qed.

(** What is kept by the try body, by the handler and by a flush of a
    non-empty batch is kept by a whole turn of the loop. *)
Lemma iteration_preserves (P : Loop F -> Prop) self base_url now o :
  (forall f st, P st -> P (with_frontier f st)) ->
  (forall url, preserves P (visit self base_url now o url)) ->
  (forall st, P st -> P (set_restart true (playwright_stop st))) ->
  (forall url msg st, P st ->
     P (record_fault ("Failed to fetch '" +:+ url +:+ "': " +:+ msg) st)) ->
  (forall st, P st -> doc_batch st <> [] ->
     P (yield_batch (set_restart true (playwright_stop st)))) ->
  forall st, P st -> P (iteration self base_url now o st).
Proof.
  intros Hfr Hvisit Hstop Hfault Hyield st Hst. unfold iteration.
  destruct (get_next_url now (frontier st)) as [current_url fr].
  assert (Hst0 : P (with_frontier (fun _ => fr) st)) by now apply Hfr.
  destruct current_url as [[|c u]|]; try exact Hst0.
  unfold try_visit.
  pose proof (Hvisit (String c u) _ Hst0) as Hv.
  pose proof (visit_falls_through self base_url now o (String c u)
                (with_frontier (fun _ => fr) st)) as Hne.
  destruct (visit _ _ _ _ _ _) as [st' [[|]|e]]; simpl in Hv.
  - exact Hv.
  - unfold flush_if_full. destruct (_ >=? _); [| exact Hv].
    apply Hyield; [exact Hv | now apply (Hne st')].
  - unfold on_exception. now apply Hstop, Hfault.
Qed.

Lemma crawl_preserves (P : Loop F -> Prop) self base_url clock obs :
  (forall now o st, P st -> P (iteration self base_url now o st)) ->
  (forall st, P st -> P (finish st).1) ->
  forall n st, P st -> P (final_state (crawl self base_url clock n obs st)).
Proof.
  intros Hiter Hfin. induction obs as [|o obs IH]; intros n st Hst; simpl;
    destruct (has_next_url (clock n) (frontier st)).
  - exact Hst.
  - specialize (Hfin st Hst). now destruct (finish st).
  - now apply IH, Hiter.
  - specialize (Hfin st Hst). now destruct (finish st).
Qed.

Lemma finish_preserves (P : Loop F -> Prop) :
  (forall st, P st -> doc_batch st <> [] -> P (yield_batch (playwright_stop st))) ->
  forall st, P st -> P (finish st).1.
Proof.
  intros Hyield st Hst. unfold finish.
  destruct (doc_batch st) as [|d ds] eqn:Hb.
  - now repeat case_match.
  - simpl. apply Hyield; [exact Hst | now rewrite Hb].
Qed.

Lemma run_preserves (P : Loop F -> Prop) self w :
  (forall fr, P (initial fr)) ->
  (forall fr, P (started (initial fr))) ->
  (forall base_url now o st, P st -> P (iteration self base_url now o st)) ->
  (forall st, P st -> P (finish st).1) ->
  P (final_state (load_from_state self w)).
Proof.
  intros Hinit Hstart Hiter Hfin. unfold load_from_state.
  destruct (to_visit_list self) as [|base_url urls]; [apply Hinit|].
  destruct (start0 w); [| apply Hinit].
  apply crawl_preserves; auto.
Qed.

End CrawlInvariants.

Section RunProperties.
Context `{Collaborators} {F : Type} `{URLFrontier F}.

(** [load_from_state] never yields an empty batch, whatever the batch
    size (zero and negative sizes included). *)
Theorem no_empty_batch_is_yielded self w :
  Forall (fun batch => batch <> [])
    (batches_of (events (final_state (load_from_state (F:=F) self w)))).
Proof.
  apply (run_preserves
           (fun st => Forall (fun batch => batch <> []) (batches_of (events st)))).
  - intros fr. constructor.
  - intros fr. constructor.
  - intros base_url now o.
    apply (iteration_preserves
             (fun st => Forall (fun batch => batch <> []) (batches_of (events st)))).
    + now intros f st.
    + intros url st Hst.
      now rewrite (visit_yields_nothing self base_url now o url _ st eq_refl).
    + intros st Hst. simpl. now rewrite batches_of_skip.
    + intros url msg st Hst. simpl. now rewrite batches_of_skip.
    + intros st Hst Hne. simpl. rewrite batches_of_yield, batches_of_skip by easy.
      apply Forall_app. split; [exact Hst | now constructor].
  - apply (finish_preserves
             (fun st => Forall (fun batch => batch <> []) (batches_of (events st)))).
    intros st Hst Hne. simpl.
    rewrite batches_of_yield, batches_of_skip by easy.
    apply Forall_app. split; [exact Hst | now constructor].
Qed.

Lemma SessionInv_visit self base_url now o url :
  preserves (@SessionInv F) (visit self base_url now o url).
Proof.
  unfold visit, check_internet_connection, visit_pdf, visit_page,
    add_internal_links.
  apply preserves_bind; [| intros ?; apply preserves_bind; [| intros ?]].
  - preserves_steps;
      match goal with Hs : SessionInv _ |- _ => destruct Hs as [? ? ?] end;
      now split.
  - apply restart_preserves. intros st Hflag [Hd Hr Hp]. split; simpl.
    + rewrite Hr, (Hp Hflag). exact Hd.
    + reflexivity.
    + easy.
  - preserves_steps;
      match goal with Hs : SessionInv _ |- _ => destruct Hs as [? ? ?] end;
      now split.
Qed.

(** A rendering session is never started while another one is running,
    and the loop's idea of whether a session runs is what its starts and
    stops say; this holds at any point a run can be observed. *)
Theorem sessions_never_overlap self w :
  let st := final_state (load_from_state (F:=F) self w) in
  starts_when_stopped (events st) = true
  /\ running_after (events st) = playwright_running st.
Proof.
  simpl. cut (SessionInv (final_state (load_from_state (F:=F) self w))).
  { now intros [? ? ?]. }
  apply (run_preserves (@SessionInv F)).
  - intros fr. now split.
  - intros fr. now split.
  - intros base_url now o. apply (iteration_preserves (@SessionInv F)).
    + intros f st [? ? ?]. now split.
    + intros url. apply SessionInv_visit.
    + intros st [? ? ?]. now split.
    + intros url msg st [? ? ?]. now split.
    + intros st [? ? ?] _. now split.
  - apply (finish_preserves (@SessionInv F)). intros st [? ? ?] _. now split.
Qed.

Lemma yields_follow_stop_visit self base_url now o url :
  preserves (fun st : Loop F => yields_follow_stop (events st) = true)
    (visit self base_url now o url).
Proof.
  unfold visit, check_internet_connection, visit_pdf, visit_page,
    add_internal_links.
  apply preserves_bind; [| intros ?; apply preserves_bind; [| intros ?]].
  - preserves_steps; easy.
  - apply restart_preserves. now intros st _ Hst.
  - preserves_steps; easy.
Qed.

(** Every batch is handed over with the rendering session stopped: in
    the trace each yield directly follows a [playwright.stop()]. *)
Theorem batches_are_yielded_after_stop self w :
  yields_follow_stop (events (final_state (load_from_state (F:=F) self w))) = true.
Proof.
  apply (run_preserves (fun st => yields_follow_stop (events st) = true)).
  - reflexivity.
  - reflexivity.
  - intros base_url now o.
    apply (iteration_preserves
             (fun st => yields_follow_stop (events st) = true)); try easy.
    intros url. apply yields_follow_stop_visit.
  - apply (finish_preserves (fun st => yields_follow_stop (events st) = true)).
    easy.
Qed.

End RunProperties.

Section GatheredDocuments.
Context `{Collaborators} {F : Type} `{URLFrontier F}.

Lemma collected_same (st st' : Loop F) :
  batches_of (events st') = batches_of (events st) ->
  doc_batch st' = doc_batch st -> collected st' = collected st.
Proof. unfold collected. now intros -> ->. Qed.

Lemma collected_append d (st : Loop F) :
  collected (append_doc d st) = (collected st ++ [d])%list.
Proof. unfold collected. simpl. now rewrite app_assoc. Qed.

Lemma collected_yield (st : Loop F) : collected (yield_batch st) = collected st.
Proof.
  unfold collected. simpl. rewrite batches_of_yield, concat_app. simpl.
  now rewrite !app_nil_r.
Qed.

(** What has been gathered stays gathered through the try body. *)
Lemma visit_keeps_collected self base_url now o url c :
  preserves (fun st : Loop F => exists new, collected st = (c ++ new)%list)
    (visit self base_url now o url).
Proof.
  unfold visit, check_internet_connection, visit_pdf, visit_page,
    add_internal_links.
  apply preserves_bind; [| intros ?; apply preserves_bind; [| intros ?]].
  - preserves_steps; easy.
  - apply restart_preserves. now intros st _ Hst.
  - preserves_steps; try easy;
      match goal with
      | Hc : exists new, _ |- _ =>
          let Hnew := fresh "Hnew" in
          destruct Hc as [? Hnew];
          rewrite collected_append, Hnew, <- app_assoc; now eexists
      end.
Qed.

Lemma crawl_finished_flushed self base_url clock obs : forall n (st st' : Loop F) t,
  crawl self base_url clock n obs st = Finished st' t -> doc_batch st' = [].
Proof.
  assert (Hfin : forall (st st' : Loop F) t, finish st = (st', t) -> doc_batch st' = []).
  { intros st st' t. unfold finish.
    destruct (doc_batch st) as [|d ds] eqn:Hb; simpl;
      repeat case_match; now intros [= <- <-]. }
  induction obs as [|o obs IH]; intros n st st' t; simpl;
    destruct (has_next_url (clock n) (frontier st)); try easy.
  - destruct (finish st) as [st1 t1] eqn:Hf. intros [= <- <-]. eauto.
  - apply IH.
  - destruct (finish st) as [st1 t1] eqn:Hf. intros [= <- <-]. eauto.
Qed.

(** From any point of the loop on, the documents gathered so far (yielded
    or waiting in the batch) are never dropped or reordered, whatever
    faults follow; and when the generator finishes, all of them have
    been yielded. *)
Theorem gathered_documents_are_kept self base_url clock n obs (st : Loop F) :
  let r := crawl self base_url clock n obs st in
  exists new,
    collected (final_state r) = (collected st ++ new)%list
    /\ (terminal r <> None ->
        concat (batches_of (events (final_state r))) = (collected st ++ new)%list).
Proof.
  simpl.
  assert (Hkept : exists new,
            collected (final_state (crawl self base_url clock n obs st))
            = (collected st ++ new)%list).
  { apply (crawl_preserves
             (fun st' => exists new, collected st' = (collected st ++ new)%list)).
    - intros now o.
      apply (iteration_preserves
               (fun st' => exists new, collected st' = (collected st ++ new)%list)).
      + now intros f st0.
      + intros url. apply visit_keeps_collected.
      + now intros st0.
      + now intros url msg st0.
      + intros st0 [new Hnew] _. exists new. now rewrite collected_yield.
    - apply (finish_preserves
               (fun st' => exists new, collected st' = (collected st ++ new)%list)).
      intros st0 [new Hnew] _. exists new. now rewrite collected_yield.
    - exists []. now rewrite app_nil_r. }
  destruct Hkept as [new Hnew]. exists new. split; [exact Hnew|].
  intros Hdone. rewrite <- Hnew.
  destruct (crawl self base_url clock n obs st) as [st' t|st'] eqn:Hrun; [|easy].
  simpl. unfold collected.
  now rewrite (crawl_finished_flushed _ _ _ _ _ _ _ _ Hrun), app_nil_r.
Qed.

Lemma all_probed_grows (st st' : Loop F) :
  (forall e, In e (events st) -> In e (events st')) ->
  collected st' = collected st -> all_probed st -> all_probed st'.
Proof.
  intros Hev Hc. unfold all_probed. rewrite Hc. intros Hall.
  eapply Forall_impl; [exact Hall|].
  intros d [Hin Hd]. split; [now apply Hev | exact Hd].
Qed.

Lemma all_probed_append url d (st : Loop F) :
  Models.id d = url -> self_linked d ->
  all_probed st /\ In (EvProbe url) (events st) ->
  all_probed (append_doc d st) /\ In (EvProbe url) (events (append_doc d st)).
Proof.
  intros Hid Hd [Hst Hin]. split; [| exact Hin].
  unfold all_probed. rewrite collected_append. apply Forall_app. split.
  - exact Hst.
  - constructor; [| constructor]. split; [now rewrite Hid | exact Hd].
Qed.

Lemma preserves_seq {A B} (P Q : Loop F -> Prop) (m : @M F A) (k : A -> @M F B) :
  (forall st, P st -> Q (m st).1) -> (forall a, preserves Q (k a)) ->
  forall st, P st -> Q (bind m k st).1.
Proof.
  intros Hm Hk st Hst. unfold bind. specialize (Hm st Hst).
  destruct (m st) as [st' [a|e]]; simpl in *; [now apply Hk | exact Hm].
Qed.

Lemma visit_all_probed self base_url now o url :
  preserves (@all_probed F) (visit self base_url now o url).
Proof.
  intros st Hst. unfold visit.
  refine (proj1 (preserves_seq (@all_probed F)
                   (fun st => all_probed st /\ In (EvProbe url) (events st))
                   _ _ _ _ st Hst)).
  - clear st Hst. intros st Hst.
    pose proof (probe_events now url (probe o) st) as [Hev Hdocs].
    split; [| rewrite Hev; now left].
    apply (all_probed_grows st); [| | exact Hst].
    + intros e He. rewrite Hev. now right.
    + apply collected_same; [| exact Hdocs]. now rewrite Hev, batches_of_skip.
  - intros _. unfold visit_pdf, visit_page, add_internal_links.
    apply preserves_bind; [| intros ?].
    + apply restart_preserves. intros st0 _ [Hst0 Hin]. split; [| now right].
      apply (all_probed_grows st0); [now right | reflexivity | exact Hst0].
    + preserves_steps;
        try match goal with
          | |- all_probed (append_doc _ _) /\ _ =>
              apply all_probed_append; [reflexivity | now eexists | assumption]
          end;
        match goal with
        | Hc : all_probed _ /\ _ |- _ =>
            let Hp := fresh "Hp" in
            let Hin := fresh "Hin" in
            destruct Hc as [Hp Hin];
            (split; [| first [exact Hin | now right]]);
            (eapply all_probed_grows; [| | exact Hp];
             [ first [now intros ? ? | intros ? ?; now right] | reflexivity ])
        end.
Qed.

(** Whatever a crawl has gathered, each document carries the id of a URL
    whose probe was run in this crawl, has [WEB] as source and a single
    section that links to that id. *)
Theorem gathered_documents_were_probed self w :
  let st := final_state (load_from_state (F:=F) self w) in
  Forall (fun d => In (EvProbe (Models.id d)) (events st)
                   /\ exists text,
                        Models.sections d = [ {| Models.link := Models.id d;
                                                 Models.text := text |} ]
                        /\ Models.source d = Models.WEB)
         (concat (batches_of (events st)) ++ doc_batch st).
Proof.
  simpl. apply (run_preserves (@all_probed F)).
  - intros fr. constructor.
  - intros fr. constructor.
  - intros base_url now o. apply (iteration_preserves (@all_probed F)).
    + intros f st. now apply all_probed_grows.
    + intros url. apply visit_all_probed.
    + intros st. apply all_probed_grows; [now right | reflexivity].
    + intros url msg st. apply all_probed_grows; [now right | reflexivity].
    + intros st Hst _. eapply all_probed_grows; [| | exact Hst].
      * intros e He. right. now right.
      * now rewrite collected_yield.
  - apply (finish_preserves (@all_probed F)). intros st Hst _.
    eapply all_probed_grows; [| | exact Hst].
    + intros e He. right. now right.
    + now rewrite collected_yield.
Qed.

End GatheredDocuments.

(** ** More on link extraction *)

Lemma split_first_no_sep sep s : has_char sep (Py.split_first sep s) = false.
Proof.
  unfold Py.split_first. induction s as [|c s IH]; [reflexivity|]. simpl.
  destruct (Ascii.eqb c sep) eqn:Hc; [reflexivity|].
  pose proof (split_nonempty sep s).
  destruct (Py.split sep s) as [|p ps]; [easy|]. simpl in *. now rewrite Hc.
Qed.

Lemma split_first_prefix sep s : exists rest, s = Py.split_first sep s +:+ rest.
Proof.
  unfold Py.split_first. induction s as [|c s [rest IH]]; [now exists ""|]. simpl.
  destruct (Ascii.eqb c sep); [now exists (String c s)|].
  pose proof (split_nonempty sep s).
  destruct (Py.split sep s) as [|p ps]; [easy|]. simpl in *.
  exists rest. now rewrite append_cons, <- IH.
Qed.

Lemma contains_char c s : Py.contains (String c "") s = has_char c s.
Proof.
  induction s as [|c' s IH]; [reflexivity|].
  change (Py.contains (String c "") (String c' s))
    with (String.prefix (String c "") (String c' s) || Py.contains (String c "") s).
  rewrite IH. simpl. f_equal.
  destruct (ascii_dec c c') as [->|Hne].
  - rewrite Ascii.eqb_refl. now destruct s.
  - symmetry. apply Ascii.eqb_neq. congruence.
Qed.

Lemma replace_removes a b s : a <> b -> has_char a (Py.replace a b s) = false.
Proof.
  intros Hab. induction s as [|c s IH]; [reflexivity|]. simpl. rewrite IH.
  destruct (Ascii.eqb_spec c a) as [->|Hc]; rewrite orb_false_r.
  - apply Ascii.eqb_neq. congruence.
  - now apply Ascii.eqb_neq.
Qed.

Lemma has_char_prefix c s rest : has_char c (s +:+ rest) = false -> has_char c s = false.
Proof.
  induction s as [|c' s IH]; [reflexivity|]. rewrite append_cons. simpl.
  intros [-> Hs]%orb_false_iff. now rewrite IH.
Qed.


Section LinkSets.
Context `{Collaborators}.

(** The set of internal links depends on which [href]s occur on the
    page, not on their order or on how often they are repeated. *)
Theorem internal_links_ignore_anchor_order base_url url soup soup' links links' :
  (forall a, a ∈ anchors soup <-> a ∈ anchors soup') ->
  get_internal_links base_url url soup true = Ok links ->
  get_internal_links base_url url soup' true = Ok links' ->
  links = links'.
Proof.
  intros Hsame Hl Hl'. unfold get_internal_links in *.
  apply set_eq. intros link.
  rewrite (collect_links_spec _ _ _ _ _ _ Hl link),
          (collect_links_spec _ _ _ _ _ _ Hl' link).
  apply or_iff_compat_l.
  split; intros (href & Hin & Hrest); exists href; (split; [| exact Hrest]);
    now apply Hsame.
Qed.

End LinkSets.

Lemma internal_links_ignore_anchor_order_witness :
  ({[ "https://a.com/docs/intro" ]} : gset string) = {[ "https://a.com/docs/intro" ]}.
Proof.
  apply (internal_links_ignore_anchor_order "https://a.com/docs"
           "https://a.com/docs/" docs_page
           {| anchors := [None; Some "https://other.org/"; Some "\docs\intro#top";
                          Some "\docs\intro#top"];
              markup := "" |}).
  - intros a. unfold docs_page. simpl. rewrite !elem_of_cons, !elem_of_nil. tauto.
  - vm_compute. reflexivity.
  - vm_compute. reflexivity.
Defined.

(** ** The rendered load of a good page *)

Section GoodPage.
Context `{Collaborators} {F : Type} `{URLFrontier F}.
Variable self : WebConnector.
Variable base_url : string.
Variable now : Z.
Variable o : Obs.

(** A page that is reached, not redirected, not an error page and cleaned
    up without exception is gathered exactly once, as the last document:
    it goes into the batch, or, when it fills the batch, into a batch
    yielded at once with the session stopped and a restart pending.  No
    fault is recorded, and in recursive mode its links go to the
    frontier. *)
Theorem good_page_is_gathered (st : Loop F) current_url fr response soup links
    parsed_html :
  get_next_url now (frontier st) = (Some current_url, fr) ->
  current_url <> "" ->
  is_pdf_url current_url = false ->
  probe o = ProbeOk ->
  (restart_playwright st = true -> restart o = Ok tt) ->
  new_page (page o) = Ok tt ->
  goto (page o) = Ok (Some response) ->
  page_url (page o) = current_url ->
  page_content (page o) = Ok soup ->
  (if recursive self then get_internal_links base_url current_url soup true
   else Ok ∅) = Ok links ->
  is_error_status (status response) = false ->
  web_html_cleanup soup (mintlify_cleanup self) = Ok parsed_html ->
  page_close (page o) = Ok tt ->
  let st' := iteration self base_url now o st in
  let doc := html_document current_url parsed_html (header_last_modified response) in
  collected st' = (collected st ++ [doc])%list
  /\ last_error st' = last_error st
  /\ frontier st' = links_added now links fr
  /\ (if Z.of_nat (length (doc_batch st)) + 1 >=? batch_size self
      then doc_batch st' = []
           /\ batches_of (events st')
              = (batches_of (events st) ++ [doc_batch st ++ [doc]])%list
           /\ playwright_running st' = false
           /\ restart_playwright st' = true
      else doc_batch st' = (doc_batch st ++ [doc])%list
           /\ batches_of (events st') = batches_of (events st)).
Proof.
  intros Hnext Hurl Hpdf Hprobe Hrestart Hpage Hgoto Hfinal Hcontent Hlinks
    Herror Hclean Hclose. simpl.
  rewrite (iteration_visits _ _ _ _ _ _ _ Hnext Hurl). unfold try_visit.
  rewrite visit_ready by assumption. rewrite Hpdf.
  destruct (ready_fields current_url (with_frontier (fun _ => fr) st))
    as (Hfr & Hdocs & Herr & _ & Hb & _). simpl in Hfr, Hdocs, Herr, Hb.
  unfold visit_page, bind, call, update, ret.
  rewrite Hpage, Hgoto. simpl.
  apply String.eqb_eq in Hfinal. rewrite Hfinal. simpl. rewrite Hcontent.
  set (st0 := emit _ _).
  assert (Hadd : add_internal_links self base_url now current_url soup st0
                 = ((if recursive self
                     then with_frontier (links_added now links) st0 else st0),
                    Ok tt)).
  { unfold add_internal_links. destruct (recursive self).
    - unfold bind, call, update. now rewrite Hlinks.
    - reflexivity. }
  assert (Hlf : frontier (if recursive self
                          then with_frontier (links_added now links) st0 else st0)
                = links_added now links fr).
  { destruct (recursive self) eqn:Hrec; simpl; [now rewrite Hfr|].
    injection Hlinks as <-. unfold links_added. rewrite elements_empty.
    simpl. exact Hfr. }
  set (st1 := if recursive self then with_frontier _ _ else _) in *.
  assert (Hst1 : doc_batch st1 = doc_batch st
                 /\ batches_of (events st1) = batches_of (events st)
                 /\ last_error st1 = last_error st).
  { subst st1 st0. destruct (recursive self); simpl;
      now rewrite batches_of_skip, Hb, Hdocs, Herr. }
  destruct Hst1 as (Hd1 & Hb1 & He1).
  rewrite Hadd, Herror, Hclean, Hclose. unfold flush_if_full. simpl.
  rewrite Hd1, length_app, Nat2Z.inj_add. simpl.
  unfold collected.
  destruct (_ >=? batch_size self); simpl.
  - rewrite batches_of_yield, batches_of_skip, Hb1, Hd1, concat_app by easy.
    simpl. conjuncts; try easy. now rewrite !app_nil_r, app_assoc.
  - rewrite Hb1, Hd1. conjuncts; try easy. now rewrite app_assoc.
Qed.

End GoodPage.

(** ** Instances of the properties above *)

Lemma good_page_is_gathered_witness :
  let self := Standin.connector false 1 ["https://a.com/y"] in
  let st := seeded ["https://a.com/y"] in
  let st' := iteration self "https://a.com/y" 1
               (Standin.rendered "https://a.com/y" 200 []) st in
  let doc := html_document "https://a.com/y"
               {| title := None; cleaned_text := "text" |} None in
  collected st' = (collected st ++ [doc])%list
  /\ last_error st' = last_error st
  /\ frontier st' = links_added 1 ∅ (Frontier.next 1 (frontier st)).2
  /\ (if Z.of_nat (length (doc_batch st)) + 1 >=? 1
      then doc_batch st' = []
           /\ batches_of (events st')
              = (batches_of (events st) ++ [doc_batch st ++ [doc]])%list
           /\ playwright_running st' = false
           /\ restart_playwright st' = true
      else doc_batch st' = (doc_batch st ++ [doc])%list
           /\ batches_of (events st') = batches_of (events st)).
Proof.
  apply (good_page_is_gathered
           (Standin.connector false 1 ["https://a.com/y"]) "https://a.com/y" 1
           (Standin.rendered "https://a.com/y" 200 [])
           (seeded ["https://a.com/y"]) "https://a.com/y"
           (Frontier.next 1 (frontier (seeded ["https://a.com/y"]))).2
           {| status := 200; header_retry_after := None;
              header_last_modified := None |}
           {| anchors := []; markup := "text" |} ∅
           {| title := None; cleaned_text := "text" |}).
  - vm_compute. reflexivity.
  - discriminate.
  - reflexivity.
  - reflexivity.
  - reflexivity.
  - reflexivity.
  - reflexivity.
  - reflexivity.
  - reflexivity.
  - reflexivity.
  - reflexivity.
  - reflexivity.
  - reflexivity.
Defined.


Example read_urls_file_sample :
  _read_urls_file two_locs = Ok ["https://a.com/x"; "https://a.com/y"].
Proof. vm_compute. reflexivity. Qed.

Lemma sitemap_urls_never_empty_witness :
  ["https://a.com/p"; "https://a.com/q"] <> [].
Proof.
  apply (sitemap_urls_never_empty two_locs "https://a.com/sitemap.xml").
  vm_compute. reflexivity.
Defined.

Lemma sitemap_absolute_locs_in_order_witness :
  extract_urls_from_sitemap two_locs "https://a.com/sitemap.xml"
  = Ok ["https://a.com/p"; "https://a.com/q"].
Proof.
  apply (sitemap_absolute_locs_in_order two_locs "https://a.com/sitemap.xml"
           {| locs := ["https://a.com/p"; "https://a.com/q"]; urlsets := 1 |}).
  - reflexivity.
  - discriminate.
  - repeat constructor; eexists; (split; [vm_compute; reflexivity | reflexivity]).
Defined.

Lemma constructed_connector_is_seeded_witness :
  let self := Standin.connector false 10 ["https://a.com/docs"] in
  "single" ∈ ["recursive"; "single"; "sitemap"; "upload"]
  /\ recursive self = String.eqb "single" "recursive"
  /\ ("single" = "recursive" \/ "single" = "single" ->
      to_visit_list self = [_ensure_valid_url "a.com/docs"])
  /\ ("single" <> "upload" -> to_visit_list self <> [])
  /\ batch_size self = 10
  /\ mintlify_cleanup self = true.
Proof.
  apply (constructed_connector_is_seeded two_locs "a.com/docs" "single" true 10
           "public" None None).
  vm_compute. reflexivity.
Defined.

(** * Dispatch, terminal failure, rate limits and faults *)



Section Dispatch.
Context `{Collaborators} {F : Type} `{URLFrontier F}.


End Dispatch.



(** ** Terminal failure of a whole run *)

Section WholeRun.
Context `{Collaborators} {F : Type} `{URLFrontier F}.

(** A run is left pending only by a frontier that still reports work
    after the last recorded observation. *)
Lemma crawl_pending self base_url clock obs : forall n (st st' : Loop F),
  crawl self base_url clock n obs st = Pending st' ->
  has_next_url (clock (n + length obs)%nat) (frontier st') = true.
Proof.
  induction obs as [|o obs IH]; intros n st st' Hrun; simpl in Hrun;
    destruct (has_next_url (clock n) (frontier st)) eqn:Hmore.
  - injection Hrun as <-. simpl. now rewrite Nat.add_0_r.
  - now destruct (finish st).
  - apply IH in Hrun. simpl.
    now replace (n + S (length obs))%nat with (S n + length obs)%nat by lia.
  - now destruct (finish st).
Qed.

(** C1, as the code has it: without seed URLs the generator raises
    [ValueError] at once, and an exception of the first
    [start_playwright()] leaves it unchanged.  Otherwise the crawl gets
    under way, and unless the frontier still reports work after the last
    observation it ends: with [RuntimeError] when it yielded no batch,
    the message being the last fault recorded or ["No valid pages
    found."] when there is none, and with a plain return when it yielded
    at least one batch. *)
Theorem started_crawl_fails_iff_no_batch self (w : World) :
  (to_visit_list self = [] ->
     load_from_state (F:=F) self w
     = Finished (initial new_frontier) (Raised (ValueError "No URLs to visit")))
  /\ (to_visit_list self <> [] -> forall e, start0 w = Raise e ->
     terminal (load_from_state (F:=F) self w) = Some (Raised (OtherError e))
     /\ events (final_state (load_from_state (F:=F) self w)) = [])
  /\ (to_visit_list self <> [] -> start0 w = Ok tt ->
     match load_from_state (F:=F) self w with
     | Finished st t =>
         (batches_of (events st) = [] ->
            t = Raised (RuntimeError (terminal_message (events st))))
         /\ (batches_of (events st) <> [] -> t = Returned)
     | Pending st =>
         has_next_url (clock w (1 + length (observations w))%nat) (frontier st)
         = true
     end).
Proof.
  conjuncts.
  - intros Hseeds. unfold load_from_state. now rewrite Hseeds.
  - intros Hseeds e Hstart. unfold load_from_state.
    destruct (to_visit_list self); [easy|]. now rewrite Hstart.
  - intros Hseeds Hstart.
    destruct (load_from_state self w) as [st t|st] eqn:Hrun.
    + now apply (finished_crawl_terminal self w).
    + unfold load_from_state in Hrun.
      destruct (to_visit_list self) as [|base_url urls]; [easy|].
      rewrite Hstart in Hrun. now apply crawl_pending in Hrun.
Qed.

End WholeRun.

(** C1 as stated fails before the crawl gets under way: an upload of
    blank lines constructs a connector without seeds, whose run yields
    nothing, records no fault and raises [ValueError]; and when the first
    session cannot be started the run yields nothing and raises that
    exception.  Neither message is ["No valid pages found."]. *)
Lemma no_batch_without_runtime_error :
  (exists self,
     __init__ blank_upload "urls.txt" "upload" true 10 "public" None None = Ok self
     /\ terminal (Standin.run self (Standin.world []))
        = Some (Raised (ValueError "No URLs to visit"))
     /\ events (final_state (Standin.run self (Standin.world []))) = [])
  /\ (let r := Standin.run (Standin.connector false 10 ["https://a.com/"])
                 {| clock := fun n => Z.of_nat n;
                    start0 := Raise "Executable doesn't exist";
                    observations := [] |} in
      terminal r = Some (Raised (OtherError "Executable doesn't exist"))
      /\ events (final_state r) = []).
Proof.
  split.
  - eexists. conjuncts; [vm_compute; reflexivity | reflexivity | reflexivity].
  - now split.
Qed.

Lemma started_crawl_fails_iff_no_batch_witness :
  match
    load_from_state (F:=Frontier.t)
      (Standin.connector false 10 ["https://a.com/x"; "https://a.com/y"])
      (Standin.world [Standin.unreachable 500; Standin.unreachable 500])
  with
  | Finished st t =>
      (batches_of (events st) = [] ->
         t = Raised (RuntimeError (terminal_message (events st))))
      /\ (batches_of (events st) <> [] -> t = Returned)
  | Pending st =>
      has_next_url
        (clock (Standin.world [Standin.unreachable 500; Standin.unreachable 500])
               (1 + length (observations
                  (Standin.world [Standin.unreachable 500; Standin.unreachable 500])))%nat)
        (frontier st) = true
  end.
Proof.
  apply (proj2 (proj2 (started_crawl_fails_iff_no_batch
           (Standin.connector false 10 ["https://a.com/x"; "https://a.com/y"])
           (Standin.world [Standin.unreachable 500; Standin.unreachable 500])))).
  - discriminate.
  - reflexivity.
Defined.

(** ** A fault and what follows it *)

Section AfterFault.
Context `{Collaborators} {F : Type} `{URLFrontier F}.

Lemma trace_extends_more evs more (st st' : Loop F) :
  events st' = (more ++ events st)%list ->
  trace_extends evs st -> trace_extends evs st'.
Proof.
  intros Hev [later Hlater]. exists (more ++ later)%list.
  now rewrite Hev, Hlater, app_assoc.
Qed.

(** Closes a goal [trace_extends evs st'] where [st'] adds up to three
    events to a state known to extend [evs]. *)
Ltac trace_grows :=
  first [ eapply (trace_extends_more _ []); [reflexivity | eassumption]
        | eapply (trace_extends_more _ [_]); [reflexivity | eassumption]
        | eapply (trace_extends_more _ [_; _]); [reflexivity | eassumption]
        | eapply (trace_extends_more _ [_; _; _]); [reflexivity | eassumption] ].

Lemma fetch_extends self base_url now o url evs :
  preserves (fun st : Loop F => trace_extends evs st)
    (if is_pdf_url url then visit_pdf now o url
     else visit_page self base_url now o url).
Proof.
  unfold visit_pdf, visit_page, add_internal_links.
  preserves_steps; trace_grows.
Qed.

Lemma visit_extends self base_url now o url evs :
  preserves (fun st : Loop F => trace_extends evs st)
    (visit self base_url now o url).
Proof.
  unfold visit, check_internet_connection.
  apply preserves_bind; [| intros ?; apply preserves_bind; [| intros ?]].
  - preserves_steps; trace_grows.
  - apply restart_preserves. intros st _ Hst. trace_grows.
  - apply fetch_extends.
Qed.

Lemma try_visit_extends self base_url now o url evs (st : Loop F) :
  trace_extends evs (visit self base_url now o url st).1 ->
  trace_extends evs (try_visit self base_url now o url st).
Proof.
  unfold try_visit, on_exception, flush_if_full.
  destruct (visit self base_url now o url st) as [st' [[|]|e]]; simpl;
    intros Hst; [exact Hst | | trace_grows].
  destruct (_ >=? _); [trace_grows | exact Hst].
Qed.

Lemma crawl_extends self base_url clock obs evs : forall n (st : Loop F),
  trace_extends evs st ->
  trace_extends evs (final_state (crawl self base_url clock n obs st)).
Proof.
  apply (crawl_preserves (fun st => trace_extends evs st)).
  - intros now o.
    apply (iteration_preserves (fun st => trace_extends evs st)).
    + intros f st Hst. trace_grows.
    + intros url. apply visit_extends.
    + intros st Hst. trace_grows.
    + intros url msg st Hst. trace_grows.
    + intros st Hst _. trace_grows.
  - apply (finish_preserves (fun st => trace_extends evs st)).
    intros st Hst _. trace_grows.
Qed.

(** C8: when the [try] body of a URL raises, the handler records the
    exception as [last_error] and stops the rendering session, keeping
    the batch; nothing is yielded.  The loop then goes on: whatever the
    run does later comes after the fault in its trace, and when the
    frontier hands out a next URL whose probe passes, that URL is probed
    and a fresh session is started for it.  Only an exhausted frontier
    ends the generator, through the code after the loop. *)
Theorem faulting_url_is_skipped_and_crawl_goes_on self base_url clock n o obs
    (st st1 : Loop F) current_url fr e :
  has_next_url (clock n) (frontier st) = true ->
  get_next_url (clock n) (frontier st) = (Some current_url, fr) ->
  current_url <> "" ->
  visit self base_url (clock n) o current_url (with_frontier (fun _ => fr) st)
    = (st1, Raise e) ->
  let msg := "Failed to fetch '" +:+ current_url +:+ "': " +:+ e in
  let st' := iteration self base_url (clock n) o st in
  let r := crawl self base_url clock n (o :: obs) st in
  events st' = EvStop :: EvFault msg :: events st1
  /\ last_error st' = Some msg
  /\ playwright_running st' = false
  /\ restart_playwright st' = true
  /\ doc_batch st' = doc_batch st1
  /\ frontier st' = frontier st1
  /\ batches_of (events st') = batches_of (events st)
  /\ trace_extends (events st') (final_state r)
  /\ (has_next_url (clock (S n)) (frontier st') = false ->
      r = Finished (finish st').1 (finish st').2)
  /\ (forall o2 obs' next_url fr2,
       obs = o2 :: obs' ->
       has_next_url (clock (S n)) (frontier st') = true ->
       get_next_url (clock (S n)) (frontier st') = (Some next_url, fr2) ->
       next_url <> "" ->
       probe o2 = ProbeOk -> restart o2 = Ok tt ->
       trace_extends (EvStart :: EvProbe next_url :: events st') (final_state r)).
Proof.
  intros Hmore Hnext Hurl Hraise msg st' r.
  destruct (handler_after_fault self base_url clock n o obs st st1 current_url
              fr e Hmore Hnext Hurl Hraise)
    as (Herr & Hrun & Hflag & _ & Hdocs & Hfr & Hb & Hstep).
  fold st' in Herr, Hrun, Hflag, Hdocs, Hfr, Hb, Hstep.
  assert (Hev : events st' = EvStop :: EvFault msg :: events st1).
  { subst st'. rewrite (iteration_visits _ _ _ _ _ _ _ Hnext Hurl).
    unfold try_visit. now rewrite Hraise. }
  assert (Hr : r = crawl self base_url clock (S n) obs st') by exact Hstep.
  conjuncts; try assumption.
  - rewrite Hr. apply crawl_extends. now exists [].
  - intros Hdone. rewrite Hr. destruct obs; simpl; rewrite Hdone;
      now destruct (finish st').
  - intros o2 obs' next_url fr2 -> Hmore2 Hnext2 Hurl2 Hprobe2 Hrestart2.
    rewrite Hr. simpl. rewrite Hmore2. apply crawl_extends.
    rewrite (iteration_visits _ _ _ _ _ _ _ Hnext2 Hurl2).
    apply try_visit_extends.
    rewrite visit_ready by (simpl; auto).
    apply fetch_extends. unfold ready. simpl. rewrite Hflag. simpl.
    now exists [].
Qed.

End AfterFault.

Lemma faulting_url_is_skipped_and_crawl_goes_on_witness :
  let self := Standin.connector false 10 ["https://a.com/x"; "https://a.com/y"] in
  let o := Standin.unreachable 500 in
  let o2 := Standin.rendered "https://a.com/y" 200 [] in
  let st := seeded ["https://a.com/x"; "https://a.com/y"] in
  let msg := "Failed to fetch '" +:+ "https://a.com/x" +:+ "': " +:+
             "Internal Server Error (500) for https://a.com/x - error" in
  let st1 := emit (EvProbe "https://a.com/x")
               (with_frontier (fun _ => (Frontier.next 1 (frontier st)).2) st) in
  let st' := iteration self "https://a.com/x" 1 o st in
  let r := crawl self "https://a.com/x" Z.of_nat 1 [o; o2] st in
  events st' = EvStop :: EvFault msg :: events st1
  /\ last_error st' = Some msg
  /\ playwright_running st' = false
  /\ restart_playwright st' = true
  /\ doc_batch st' = doc_batch st1
  /\ frontier st' = frontier st1
  /\ batches_of (events st') = batches_of (events st)
  /\ trace_extends (events st') (final_state r)
  /\ (has_next_url (Z.of_nat 2) (frontier st') = false ->
      r = Finished (finish st').1 (finish st').2)
  /\ (forall o2' obs' next_url fr2,
       [o2] = o2' :: obs' ->
       has_next_url (Z.of_nat 2) (frontier st') = true ->
       get_next_url (Z.of_nat 2) (frontier st') = (Some next_url, fr2) ->
       next_url <> "" ->
       probe o2' = ProbeOk -> restart o2' = Ok tt ->
       trace_extends (EvStart :: EvProbe next_url :: events st') (final_state r)).
Proof.
  apply (faulting_url_is_skipped_and_crawl_goes_on
           (Standin.connector false 10 ["https://a.com/x"; "https://a.com/y"])
           "https://a.com/x" Z.of_nat 1 (Standin.unreachable 500)
           [Standin.rendered "https://a.com/y" 200 []]
           (seeded ["https://a.com/x"; "https://a.com/y"])
           (emit (EvProbe "https://a.com/x")
              (with_frontier
                 (fun _ => (Frontier.next 1
                    (frontier (seeded ["https://a.com/x"; "https://a.com/y"]))).2)
                 (seeded ["https://a.com/x"; "https://a.com/y"])))
           "https://a.com/x"
           (Frontier.next 1
              (frontier (seeded ["https://a.com/x"; "https://a.com/y"]))).2
           "Internal Server Error (500) for https://a.com/x - error").
  - reflexivity.
  - vm_compute. reflexivity.
  - discriminate.
  - vm_compute. reflexivity.
Defined.

(** The same run seen whole: the second seed is probed after the fault of
    the first, with a session started anew. *)
Example next_url_gets_fresh_session :
  trace_extends
    [ EvStart; EvProbe "https://a.com/y"; EvStop;
      EvFault "Failed to fetch 'https://a.com/x': Internal Server Error (500) for https://a.com/x - error";
      EvProbe "https://a.com/x"; EvStart ]
    (final_state fault_then_page).
Proof.
  exists [ EvYield [ html_document "https://a.com/y"
                       {| title := None; cleaned_text := "text" |} None ];
           EvStop; EvGoto "https://a.com/y" ].
  vm_compute. reflexivity.
Qed.

(** ** A rate-limited PDF in the frontier of the specification *)



Section RateLimitedPdf.
Context `{Collaborators}.
Variable self : WebConnector.
Variable base_url : string.
Variable now : Z.
Variable o : Obs.


End RateLimitedPdf.



(** ** Stripped lines and cut hrefs *)

Lemma lstrip_spec s :
  exists l, s = l +:+ Py.lstrip s /\ all_space l = true
            /\ starts_with_space (Py.lstrip s) = false.
Proof.
  induction s as [|c s (l & Hl & Hsp & Hst)]; [now exists ""|]. simpl.
  destruct (Py.is_space c) eqn:Hc.
  - exists (String c l). rewrite append_cons, <- Hl. simpl. now rewrite Hc, Hsp.
  - exists "". simpl. now rewrite Hc.
Qed.

Lemma rstrip_spec s :
  exists r, s = Py.rstrip s +:+ r /\ all_space r = true
            /\ ends_with_space (Py.rstrip s) = false.
Proof.
  induction s as [|c s (r & Hr & Hsp & Hend)]; [now exists ""|]. simpl.
  destruct (Py.rstrip s) as [|c' t] eqn:Hs.
  - rewrite append_nil in Hr. subst r. destruct (Py.is_space c) eqn:Hc.
    + exists (String c s). simpl. now rewrite Hc, Hsp.
    + exists s. simpl. now rewrite Hc.
  - exists r. rewrite append_cons, <- Hr. now conjuncts.
Qed.

Lemma rstrip_keeps_start s :
  starts_with_space s = false -> starts_with_space (Py.rstrip s) = false.
Proof.
  destruct s as [|c s]; [easy|]. simpl. intros Hc.
  destruct (Py.rstrip s); [now rewrite Hc | exact Hc].
Qed.

(** [strip] takes white space, and nothing else, from both ends. *)
Lemma strip_spec s :
  exists l r, s = l +:+ Py.strip s +:+ r
    /\ all_space l = true /\ all_space r = true
    /\ starts_with_space (Py.strip s) = false
    /\ ends_with_space (Py.strip s) = false.
Proof.
  unfold Py.strip.
  destruct (lstrip_spec s) as (l & Hl & Hlsp & Hstart).
  destruct (rstrip_spec (Py.lstrip s)) as (r & Hr & Hrsp & Hend).
  exists l, r. conjuncts; try assumption.
  - now rewrite <- Hr.
  - now apply rstrip_keeps_start.
Qed.

Section StrippedLines.
Context `{Collaborators}.

(** When the URL file can be read, [_read_urls_file] returns, in file
    order, the lines without the white space at their two ends, the
    empty ones left out, each with ["https://"] put in front unless it
    has a ["://"] already.  So every URL returned has a ["://"], and the
    result is empty exactly when every line is blank. *)
Theorem read_urls_file_gives_stripped_lines iw lines :
  urls_file iw = Ok lines ->
  _read_urls_file iw
  = Ok (map _ensure_valid_url (filter (fun l => l <> "") (map Py.strip lines)))
  /\ (forall line, exists l r,
        line = l +:+ Py.strip line +:+ r
        /\ all_space l = true /\ all_space r = true
        /\ starts_with_space (Py.strip line) = false
        /\ ends_with_space (Py.strip line) = false)
  /\ (forall urls, _read_urls_file iw = Ok urls ->
        Forall (fun u => Py.contains "://" u = true) urls
        /\ (urls = [] <-> Forall (fun l => Py.strip l = "") lines)).
Proof.
  intros Hfile. conjuncts.
  - unfold _read_urls_file, result_bind. rewrite Hfile. f_equal.
    clear Hfile. induction lines as [|l lines IH]; [reflexivity|].
    rewrite fmap_cons, !filter_cons.
    destruct (Py.strip l) as [|c s] eqn:Hl; simpl; rewrite ?Hl; simpl.
    + exact IH.
    + f_equal. exact IH.
  - intros line. apply strip_spec.
  - intros urls Hurls.
    destruct (read_urls_file_counts iw lines Hfile) as (urls' & Hrun & Hall & _ & Hnil).
    rewrite Hrun in Hurls. injection Hurls as <-. now split.
Qed.

End StrippedLines.

Lemma read_urls_file_gives_stripped_lines_witness :
  _read_urls_file two_locs
  = Ok (map _ensure_valid_url
          (filter (fun l => l <> "")
                  (map Py.strip ["a.com/x"; ""; "  https://a.com/y  "]))).
Proof.
  apply (proj1 (read_urls_file_gives_stripped_lines two_locs
                  ["a.com/x"; ""; "  https://a.com/y  "] eq_refl)).
Defined.

Example nbsp_line_is_blank :
  Py.strip (String (ascii_of_nat 160) (String (ascii_of_nat 133) " ")) = "".
Proof. reflexivity. Qed.

Lemma replace_get a b s : forall i,
  String.get i (Py.replace a b s)
  = (fun c => if Ascii.eqb c a then b else c) <$> String.get i s.
Proof.
  induction s as [|c s IH]; intros i; [reflexivity|].
  destruct i as [|i]; simpl; [reflexivity | apply IH].
Qed.

Lemma replace_length a b s :
  String.length (Py.replace a b s) = String.length s.
Proof. induction s as [|c s IH]; simpl; [reflexivity | now rewrite IH]. Qed.

Lemma split_first_cut sep s :
  has_char sep s = true ->
  exists rest, s = Py.split_first sep s +:+ String sep rest.
Proof.
  unfold Py.split_first. induction s as [|c s IH]; [easy|]. simpl.
  destruct (Ascii.eqb_spec c sep) as [-> | Hc]; simpl.
  - intros _. now exists s.
  - intros Hs. destruct (IH Hs) as [rest Hrest].
    pose proof (split_nonempty sep s).
    destruct (Py.split sep s) as [|p ps]; [easy|]. simpl in *.
    exists rest. now rewrite append_cons, <- Hrest.
Qed.

(** The [href] that [get_internal_links] goes on to resolve: first every
    backslash of the attribute becomes a slash, all other characters and
    the length staying as they are; then the text is cut just before its
    first ['#'], and kept whole when it has none. *)
Theorem href_is_cut_at_fragment href :
  let fixed := fix_backslashes href in
  let cleaned := strip_pound true fixed in
  String.length fixed = String.length href
  /\ (forall i,
       String.get i fixed
       = (fun c => if Ascii.eqb c "\" then "/"%char else c) <$> String.get i href)
  /\ has_char "#" cleaned = false
  /\ (has_char "#" fixed = false -> cleaned = fixed)
  /\ (has_char "#" fixed = true ->
      exists rest, fixed = cleaned +:+ String "#" rest).
Proof.
  simpl. unfold strip_pound, fix_backslashes. simpl.
  rewrite (contains_char "#").
  conjuncts.
  - apply replace_length.
  - apply replace_get.
  - destruct (has_char "#" (Py.replace "\" "/" href)) eqn:Hpound;
      [apply split_first_no_sep | exact Hpound].
  - now intros ->.
  - intros Hpound. rewrite Hpound. now apply split_first_cut.
Qed.

Example href_cut_sample :
  strip_pound true (fix_backslashes "\docs\intro#top#more") = "/docs/intro".
Proof. reflexivity. Qed.
